(** * particlepy: the grid particle simulation of [particlepy/__init__.py]

    A shallow embedding of [Particle] and [Simulation] with the properties
    the specification states about them.

    Conventions of the embedding.
    - Python numbers ([int] and [float]) are exact rationals [Q]: every
      value the program computes from integer positions, the constant
      [GRID_MULTIPLIER] and the bounce scale [0.5] is a dyadic rational,
      and floating-point rounding is not modelled.  Numeric results are
      compared with [==] ([Qeq]).  The embedding therefore follows the
      source where the source's arithmetic is exact, and not beyond: a
      true division of an [int] above [2^53] rounds, a sum or a product
      that needs more than 53 bits rounds, and an [int] too large for a
      [float] raises [OverflowError].  A statement whose content depends
      on such a result carries a hypothesis that keeps its numbers inside
      the exact range ([exact_coordinate], [small_int], a bound on the
      dimensions).
    - [int(v)] is truncation toward zero ([py_int]).
    - [self.bitmap] is a [list Z] of 32-bit words; the wrap-around of a
      store into the [uint32] array is written out ([to_uint32]).
    - An exception is a value of [exn]; a method that may raise returns
      [result].  The state a raising call leaves behind is not observed.
    - [random.randint] reads from a stream of integers given to [tick]. *)

From stdpp Require Import base list relations.
From Stdlib Require Import ZArith QArith Qround Qabs Lia Lqa Bool.

#[local] Open Scope Z_scope.

(** ** Exceptions and the error monad *)

Inductive exn : Type :=
| ValueError_not_multiple_of_32   (* [Simulation.__init__], the explicit guard *)
| ValueError_negative_dimensions  (* [numpy.zeros] with a negative length *)
| ValueError_randrange            (* [random.randint] with a non-integer bound *)
| TypeError_missing_argument_c    (* [Particle.__init__] without [c] *)
| IndexError_bitmap.              (* [self.bitmap[y]] with [y] out of bounds *)

Definition is_ValueError (e : exn) : bool :=
  match e with
  | ValueError_not_multiple_of_32
  | ValueError_negative_dimensions
  | ValueError_randrange => true
  | _ => false
  end.

Inductive result (A : Type) : Type :=
| OK (a : A)
| Raise (e : exn).
Arguments OK {A} a.
Arguments Raise {A} e.

Definition bind {A B : Type} (m : result A) (k : A -> result B) : result B :=
  match m with
  | OK a => k a
  | Raise e => Raise e
  end.

Notation "'let*' x := m 'in' k" := (bind m (fun x => k))
  (at level 10, x pattern, m at level 100, k at level 200).

(** A [for] loop whose body may raise. *)
Fixpoint for_each {A S : Type} (xs : list A) (body : A -> S -> result S) (s : S)
  : result S :=
  match xs with
  | [] => OK s
  | a :: xs' => let* s' := body a s in for_each xs' body s'
  end.

(** [range(n)] *)
Definition range (n : nat) : list Z := map Z.of_nat (seq 0 n).

(** ** Python numbers *)

Definition GRID_MULTIPLIER : Z := 256.

(** [int(v)]: truncation toward zero. *)
Definition py_int (v : Q) : Z := Z.quot (Qnum v) (Zpos (Qden v)).

Definition Qltb (a b : Q) : bool := negb (Qle_bool b a).

(** [min(a, b)] and [max(a, b)] keep the first argument unless the second
    is strictly smaller (resp. larger). *)
Definition py_min (a b : Q) : Q := if Qltb b a then b else a.
Definition py_max (a b : Q) : Q := if Qltb a b then b else a.

(** [v / GRID_MULTIPLIER] (true division), exact; the source's quotient
    is this one for every [float] and for an [int] of magnitude at most
    [2^53]. *)
Definition to_grid (v : Q) : Q := (v / inject_Z GRID_MULTIPLIER)%Q.

(** ** Particle *)

Definition color : Type := (Z * Z * Z)%type.

Module Particle.

Record t : Type := mk {
  x : Q;   (* X position in Particle-Space *)
  y : Q;   (* Y position in Particle-Space *)
  vx : Q;  (* X velocity in Particle-Space *)
  vy : Q;  (* Y Velocity in Particle-Space *)
  c : color
}.

(** The generated [__init__] of the dataclass: five fields, none with a
    default, so a call that passes no [c] raises [TypeError].  The last
    argument is [None] for such a call. *)
Definition init (x y vx vy : Q) (c : option color) : result t :=
  match c with
  | Some c => OK (mk x y vx vy c)
  | None => Raise TypeError_missing_argument_c
  end.

End Particle.

(** ** Simulation *)

Record Simulation : Type := mkSimulation {
  gravity : Q * Q * Q;
  width : Z;
  height : Z;
  pwidth : Z;
  pheight : Z;
  grav_scale : Q;
  bounce_scale : Q;
  simtime : Z;
  bitmap : list Z;
  particles : list Particle.t
}.

Definition with_bitmap (self : Simulation) (bm : list Z) : Simulation :=
  mkSimulation (gravity self) (width self) (height self) (pwidth self)
    (pheight self) (grav_scale self) (bounce_scale self) (simtime self)
    bm (particles self).

Definition with_particles (self : Simulation) (ps : list Particle.t) : Simulation :=
  mkSimulation (gravity self) (width self) (height self) (pwidth self)
    (pheight self) (grav_scale self) (bounce_scale self) (simtime self)
    (bitmap self) ps.

Definition with_gravity (self : Simulation) (g : Q * Q * Q) : Simulation :=
  mkSimulation g (width self) (height self) (pwidth self)
    (pheight self) (grav_scale self) (bounce_scale self) (simtime self)
    (bitmap self) (particles self).

(** *** The bitmap *)

Definition to_uint32 (v : Z) : Z := v mod 2 ^ 32.

(** [a[i]] on a one-dimensional numpy array of length [n]: a negative
    index counts from the end, anything outside [-n, n) raises. *)
Definition np_index (n i : Z) : result nat :=
  if (0 <=? i) && (i <? n) then OK (Z.to_nat i)
  else if (- n <=? i) && (i <? 0) then OK (Z.to_nat (n + i))
  else Raise IndexError_bitmap.

Definition np_get (a : list Z) (i : Z) : result Z :=
  let* k := np_index (Z.of_nat (length a)) i in
  match a !! k with
  | Some w => OK w
  | None => Raise IndexError_bitmap
  end.

Definition np_set (a : list Z) (i : Z) (v : Z) : result (list Z) :=
  let* k := np_index (Z.of_nat (length a)) i in
  OK (<[k := to_uint32 v]> a).

(** [1 << (x % 32)] *)
Definition bit_of (x : Z) : Z := Z.shiftl 1 (x mod 32).

(** The three pixel methods use [self] only through [self.bitmap]. *)
Definition get_pixel (bm : list Z) (x y : Q) : result Z :=
  let y := py_int y in
  let x := py_int x in
  let* w := np_get bm y in
  OK (Z.land w (bit_of x)).

Definition set_pixel (bm : list Z) (x y : Q) : result (list Z) :=
  let y := py_int y in
  let x := py_int x in
  let* w := np_get bm y in
  np_set bm y (Z.lor w (bit_of x)).

Definition clear_pixel (bm : list Z) (x y : Q) : result (list Z) :=
  let y := py_int y in
  let x := py_int x in
  let* w := np_get bm y in
  np_set bm y (Z.land w (Z.lnot (bit_of x))).

(** Truth value of what [get_pixel] returns. *)
Definition truthy (r : result Z) : result bool :=
  let* w := r in OK (negb (w =? 0)).

(** *** Construction *)

Definition add_particle (self : Simulation) (particle : Particle.t)
  : result Simulation :=
  let ps := particles self ++ [particle] in
  let* bm := set_pixel (bitmap self)
          (to_grid (Particle.x particle)) (to_grid (Particle.y particle)) in
  OK (with_bitmap (with_particles self ps) bm).

(** [init_particles].  The call on line 83 passes four positional
    arguments to [Particle]; [c0] is the fifth, [None] in the source. *)
Definition init_particles (c0 : option color) (self : Simulation)
  : result Simulation :=
  for_each (range 32) (fun x self =>
    for_each (range 2) (fun y self =>
      let* p := Particle.init (inject_Z (x * GRID_MULTIPLIER))
             (inject_Z (y * GRID_MULTIPLIER)) 0 0 c0 in
      add_particle self p) self) self.

(** [Simulation.__init__] up to, and without, the call of
    [init_particles].  [width / 32] is exact and [numpy.zeros] is taken to
    allocate any non-negative number of words; for dimensions too large
    for a [float] or for an array the source raises before it gets
    here. *)
Definition init_fields (width height : Z) : result Simulation :=
  if negb (width mod 32 =? 0) || negb (height mod 32 =? 0)
  then Raise ValueError_not_multiple_of_32
  else
    let n := py_int (inject_Z height * (inject_Z width / 32)) in
    if n <? 0 then Raise ValueError_negative_dimensions
    else OK (mkSimulation (0, 0, 0)%Q width height
               (width * GRID_MULTIPLIER - GRID_MULTIPLIER)
               (height * GRID_MULTIPLIER - GRID_MULTIPLIER)
               1 (1 # 2) 0
               (replicate (Z.to_nat n) 0) []).

Definition Simulation_init (c0 : option color) (width height : Z)
  : result Simulation :=
  let* self := init_fields width height in
  init_particles c0 self.

(** [Simulation(width, height)] as the source has it. *)
Definition create (width height : Z) : result Simulation :=
  Simulation_init None width height.

(** *** tick *)

(** [random.randint(0, raz)], that is [randrange(0, raz + 1)], as CPython
    3.7 to 3.11 have it: a bound that is not integral raises
    [ValueError]; otherwise the draw is an integer of [[0, raz]].  [r] is
    the integer the generator supplies for this draw. *)
Definition randint0 (r : Z) (raz : Q) : result Q :=
  let stop := (raz + 1)%Q in
  let istop := py_int stop in
  if Qeq_bool (inject_Z istop) stop then
    if 0 <? istop then OK (inject_Z (r mod istop))
    else Raise ValueError_randrange
  else Raise ValueError_randrange.

Definition bounce (self : Simulation) (n : Q) : Q :=
  ((- n) * bounce_scale self)%Q.

(** Limit velocity to grid multiplier. *)
Definition limit_velocity (v : Q) : Q :=
  py_max (py_min v (inject_Z GRID_MULTIPLIER)) (- inject_Z GRID_MULTIPLIER)%Q.

(** Body of the first loop of [tick]; [rx] and [ry] feed its two draws. *)
Definition update_velocity (ax ay raz : Q) (rx ry : Z) (particle : Particle.t)
  : result Particle.t :=
  let* jx := randint0 rx raz in
  let vx := (Particle.vx particle + (ax + jx))%Q in
  let* jy := randint0 ry raz in
  let vy := (Particle.vy particle + (ay + jy))%Q in
  OK (Particle.mk (Particle.x particle) (Particle.y particle)
        (limit_velocity vx) (limit_velocity vy) (Particle.c particle)).

Fixpoint velocity_pass (rng : nat -> Z) (k : nat) (ax ay raz : Q)
    (ps : list Particle.t) : result (list Particle.t) :=
  match ps with
  | [] => OK []
  | p :: ps' =>
      let* p' := update_velocity ax ay raz (rng k) (rng (S k)) p in
      let* ps'' := velocity_pass rng (S (S k)) ax ay raz ps' in
      OK (p' :: ps'')
  end.

(** The out-of-bounds check of one axis: new coordinate and velocity. *)
Definition out_of_bounds (self : Simulation) (limit : Z) (n v : Q) : Q * Q :=
  if Qltb n 0 then (0%Q, bounce self v)
  else if Qle_bool (inject_Z limit) n then (inject_Z limit, bounce self v)
  else (n, v).

(** [int(y / GRID_MULTIPLIER) * self.width + int(x / GRID_MULTIPLIER)] *)
Definition cell_index (self : Simulation) (x y : Q) : Z :=
  py_int (to_grid y) * width self + py_int (to_grid x).

(** The body of [if oidx != nidx and self.get_pixel(...)]: the new
    coordinates and velocity, in the order [(nx, ny, vx, vy)]. *)
Definition collide (self : Simulation) (bm : list Z) (particle : Particle.t)
    (nx ny vx vy : Q) (d : Z) : result (Q * Q * Q * Q) :=
  let x := Particle.x particle in
  let y := Particle.y particle in
  if d =? 1 then OK (x, ny, bounce self vx, vy)
  else if d =? width self then OK (nx, y, vx, bounce self vy)
  else if Qle_bool (Qabs vy) (Qabs vx) then
    let* along_x := truthy (get_pixel bm (to_grid nx) (to_grid y)) in
    if negb along_x then OK (nx, y, vx, bounce self vy)
    else
      let* along_y := truthy (get_pixel bm (to_grid x) (to_grid ny)) in
      if negb along_y then OK (x, ny, bounce self vx, vy)
      else OK (x, y, bounce self vx, bounce self vy)
  else
    let* along_y := truthy (get_pixel bm (to_grid x) (to_grid ny)) in
    if negb along_y then OK (x, ny, bounce self vx, vy)
    else
      let* along_x := truthy (get_pixel bm (to_grid nx) (to_grid y)) in
      if negb along_x then OK (nx, y, vx, bounce self vy)
      else OK (x, y, bounce self vx, bounce self vy).

(** Body of the second loop of [tick]: the bitmap and the particle after
    the particle has been moved.  The sums [x + vx] and [y + vy] are
    exact. *)
Definition move_particle (self : Simulation) (bm : list Z)
    (particle : Particle.t) : result (list Z * Particle.t) :=
  let x := Particle.x particle in
  let y := Particle.y particle in
  let nx := (x + Particle.vx particle)%Q in
  let ny := (y + Particle.vy particle)%Q in
  let '(nx, vx) := out_of_bounds self (pwidth self) nx (Particle.vx particle) in
  let '(ny, vy) := out_of_bounds self (pheight self) ny (Particle.vy particle) in
  let oidx := cell_index self x y in
  let nidx := cell_index self nx ny in
  let* hit :=
    if negb (oidx =? nidx)
    then truthy (get_pixel bm (to_grid nx) (to_grid ny))
    else OK false in
  let* (nx, ny, vx, vy) :=
    if hit then collide self bm particle nx ny vx vy (Z.abs (nidx - oidx))
    else OK (nx, ny, vx, vy) in
  let* bm := clear_pixel bm (to_grid x) (to_grid y) in
  let* bm := set_pixel bm (to_grid nx) (to_grid ny) in
  OK (bm, Particle.mk nx ny vx vy (Particle.c particle)).

Fixpoint position_pass (self : Simulation) (bm : list Z) (ps : list Particle.t)
  : result (list Z * list Particle.t) :=
  match ps with
  | [] => OK (bm, [])
  | p :: ps' =>
      let* (bm, p') := move_particle self bm p in
      let* (bm, ps'') := position_pass self bm ps' in
      OK (bm, p' :: ps'')
  end.

(** [tick]; draw number [k] of this call reads [rng k].  [az] and [raz]
    are exact. *)
Definition tick (rng : nat -> Z) (self : Simulation) : result Simulation :=
  let simtime' := simtime self + 1 in
  let '(g0, g1, g2) := gravity self in
  let ax := (g0 * grav_scale self)%Q in
  let ay := (g1 * grav_scale self)%Q in
  let az := (Qabs (g2 * grav_scale self) / 8)%Q in
  let ax := (ax - az)%Q in
  let ay := (ay - az)%Q in
  let raz := (az * (5 # 2))%Q in
  let* ps := velocity_pass rng 0 ax ay raz (particles self) in
  let* (bm, ps) := position_pass self (bitmap self) ps in
  OK (mkSimulation (gravity self) (width self) (height self) (pwidth self)
        (pheight self) (grav_scale self) (bounce_scale self) simtime' bm ps).

(** [n] successive calls of [tick]; call number [j] reads [rngs j]. *)
Fixpoint ticks (n : nat) (rngs : nat -> nat -> Z) (self : Simulation)
  : result Simulation :=
  match n with
  | O => OK self
  | S n' =>
      let* self' := tick (rngs O) self in
      ticks n' (fun j => rngs (S j)) self'
  end.

(** ** Cells, occupancy and counting *)

(** Cell coordinate of a particle-space coordinate:
    [int(v / GRID_MULTIPLIER)]. *)
Definition cell (v : Q) : Z := py_int (to_grid v).

(** A coordinate the source divides exactly: for an [int] or a [float] of
    magnitude at most [2^53] the quotient [v / GRID_MULTIPLIER] is
    representable, so the source computes [to_grid v] itself. *)
Definition exact_coordinate (v : Q) : Prop :=
  (Qabs v <= inject_Z (2 ^ 53))%Q.

(** What a caller sees of [get_pixel(cx, cy)] used as a condition; a
    raising call counts as not set. *)
Definition pixel_is_set (bm : list Z) (cx cy : Z) : bool :=
  match truthy (get_pixel bm (inject_Z cx) (inject_Z cy)) with
  | OK b => b
  | Raise _ => false
  end.

Definition in_cell (cx cy : Z) (p : Particle.t) : bool :=
  (cell (Particle.x p) =? cx) && (cell (Particle.y p) =? cy).

(** Number of particles whose cell is [(cx, cy)]. *)
Definition count_in_cell (ps : list Particle.t) (cx cy : Z) : nat :=
  length (filter (fun p => in_cell cx cy p = true) ps).

(** ** The specification's words *)

(** "a positive multiple of 32" *)
Definition positive_multiple_of_32 (n : Z) : Prop := 0 < n /\ n mod 32 = 0.

(** The bitmap addressing of the specification:
    [word = cellY * (width / 32) + cellX / 32], [bit = cellX % 32]. *)
Definition spec_word (width cx cy : Z) : Z := cy * (width / 32) + cx / 32.
Definition spec_bit (cx : Z) : Z := cx mod 32.

(** The resolution of a diagonal collision, in the words of the
    specification: the dominant axis is the one of larger [|v|], ties
    favouring x; try to slide along it alone, then along the other axis
    alone, else revert both coordinates and bounce both velocities.  The
    result is [(nx, ny, vx, vy)]. *)
Inductive axis : Type := X_axis | Y_axis.

Definition dominant_axis (vx vy : Q) : axis :=
  if Qle_bool (Qabs vy) (Qabs vx) then X_axis else Y_axis.

Definition other_axis (a : axis) : axis :=
  match a with X_axis => Y_axis | Y_axis => X_axis end.

(** The cell reached by moving along [a] alone is free. *)
Definition slide_free (bm : list Z) (p : Particle.t) (nx ny : Q) (a : axis)
  : bool :=
  match a with
  | X_axis => negb (pixel_is_set bm (cell nx) (cell (Particle.y p)))
  | Y_axis => negb (pixel_is_set bm (cell (Particle.x p)) (cell ny))
  end.

(** Keep the new position of axis [a], revert the other axis and bounce
    its velocity. *)
Definition slide (self : Simulation) (p : Particle.t) (nx ny vx vy : Q)
    (a : axis) : Q * Q * Q * Q :=
  match a with
  | X_axis => (nx, Particle.y p, vx, (- vy * bounce_scale self)%Q)
  | Y_axis => (Particle.x p, ny, (- vx * bounce_scale self)%Q, vy)
  end.

Definition spec_diagonal (self : Simulation) (bm : list Z) (p : Particle.t)
    (nx ny vx vy : Q) : Q * Q * Q * Q :=
  let a := dominant_axis vx vy in
  if slide_free bm p nx ny a then slide self p nx ny vx vy a
  else if slide_free bm p nx ny (other_axis a)
       then slide self p nx ny vx vy (other_axis a)
       else (Particle.x p, Particle.y p,
             (- vx * bounce_scale self)%Q, (- vy * bounce_scale self)%Q).

(** ** Well-formed engines and particles *)

(** The grid has cells, and [pwidth], [pheight] are what [__init__]
    computes from [width] and [height]. *)
Definition grid_ok (self : Simulation) : Prop :=
  0 < width self /\ 0 < height self
  /\ pwidth self = width self * GRID_MULTIPLIER - GRID_MULTIPLIER
  /\ pheight self = height self * GRID_MULTIPLIER - GRID_MULTIPLIER.

(** [0 <= x <= pwidth] and [0 <= y <= pheight] *)
Definition in_bounds (self : Simulation) (p : Particle.t) : Prop :=
  (0 <= Particle.x p <= inject_Z (pwidth self))%Q
  /\ (0 <= Particle.y p <= inject_Z (pheight self))%Q.

(** [|vx| <= 256] and [|vy| <= 256] *)
Definition limited (p : Particle.t) : Prop :=
  (Qabs (Particle.vx p) <= inject_Z GRID_MULTIPLIER)%Q
  /\ (Qabs (Particle.vy p) <= inject_Z GRID_MULTIPLIER)%Q.

(** Same position, as numbers. *)
Definition same_position (p q : Particle.t) : Prop :=
  (Particle.x p == Particle.x q)%Q /\ (Particle.y p == Particle.y q)%Q.

Definition same_positionb (p q : Particle.t) : bool :=
  Qeq_bool (Particle.x p) (Particle.x q)
  && Qeq_bool (Particle.y p) (Particle.y q).

Fixpoint same_positionsb (ps qs : list Particle.t) : bool :=
  match ps, qs with
  | [], [] => true
  | p :: ps', q :: qs' => same_positionb p q && same_positionsb ps' qs'
  | _, _ => false
  end.

(** The jitter ceiling [raz] of a tick. *)
Definition raz_of (self : Simulation) : Q :=
  let '(_, _, g2) := gravity self in
  (Qabs (g2 * grav_scale self) / 8 * (5 # 2))%Q.

(** ** The host *)

(** What the host does with an engine between two observations: it
    calls [tick] (which returns), or it assigns [gravity]. *)
Inductive host_step : Simulation -> Simulation -> Prop :=
| host_tick (rng : nat -> Z) (self self' : Simulation) :
    tick rng self = OK self' -> host_step self self'
| host_set_gravity (g : Q * Q * Q) (self : Simulation) :
    host_step self (with_gravity self g).

(** An engine as [__init__] lays it out, with its particles inside the
    grid.  [bounce_scale] is 0.5 in the source; the properties below need
    only [|bounce_scale| <= 1]. *)
Definition well_formed (self : Simulation) : Prop :=
  grid_ok self /\ (Qabs (bounce_scale self) <= 1)%Q
  /\ Forall (in_bounds self) (particles self).

(** ** Example engines *)

Definition white : color := (255, 255, 255).

(** The scenario of the specification: a 32x32 engine with zero gravity,
    one particle at cell (5, 5) with [vx = 300], and cell (6, 5)
    occupied. *)
Definition scenario_particle : Particle.t :=
  Particle.mk (inject_Z (5 * 256)) (inject_Z (5 * 256)) 300 0 white.

Definition scenario_engine : Simulation :=
  mkSimulation (0, 0, 0)%Q 32 32 7936 7936 1 (1 # 2) 0
    (<[5%nat := 96]> (replicate 32 0)) [scenario_particle].

(** The same with the particle at cell (30, 5), [vx = 256], and cell
    (31, 5), in the last column, occupied. *)
Definition last_column_particle : Particle.t :=
  Particle.mk (inject_Z (30 * 256)) (inject_Z (5 * 256)) 256 0 white.

Definition last_column_engine : Simulation :=
  mkSimulation (0, 0, 0)%Q 32 32 7936 7936 1 (1 # 2) 0
    (<[5%nat := 3221225472]> (replicate 32 0)) [last_column_particle].

(** The particle with coordinates and velocity [(nx, ny, vx, vy)]. *)
Definition particle_at (r : Q * Q * Q * Q) (c : color) : Particle.t :=
  let '(nx, ny, vx, vy) := r in Particle.mk nx ny vx vy c.

(** A 32x32 engine with one particle at cell (5, 5) moving diagonally
    with [vx = vy = 256] towards the occupied cell (6, 6); cell (6, 5) is
    occupied too, cell (5, 6) is free. *)
Definition diagonal_particle : Particle.t :=
  Particle.mk (inject_Z (5 * 256)) (inject_Z (5 * 256)) 256 256 white.

Definition diagonal_engine : Simulation :=
  mkSimulation (0, 0, 0)%Q 32 32 7936 7936 1 (1 # 2) 0
    (<[6%nat := 64]> (<[5%nat := 96]> (replicate 32 0))) [diagonal_particle].

(** ** Bitmap and particles in correspondence *)

(** A cell of the grid is set if and only if exactly one particle is in
    it, and no cell holds more than one particle. *)
Definition correspondence (self : Simulation) : Prop :=
  forall cx cy, 0 <= cx < width self -> 0 <= cy < height self ->
    (pixel_is_set (bitmap self) cx cy = true
     <-> count_in_cell (particles self) cx cy = 1%nat)
    /\ (count_in_cell (particles self) cx cy <= 1)%nat.

(** The same, counted: for use inside the position loop, where the bitmap
    and the particles are loop variables. *)
Definition counted (n : Z) (bm : list Z) (ps : list Particle.t) : Prop :=
  forall cx cy, 0 <= cx < 32 -> 0 <= cy < n ->
    count_in_cell ps cx cy = if pixel_is_set bm cx cy then 1%nat else 0%nat.

Definition cell_checkb (bm : list Z) (ps : list Particle.t) (cx cy : Z) : bool :=
  Nat.eqb (count_in_cell ps cx cy) (if pixel_is_set bm cx cy then 1 else 0).

Definition countedb (n : nat) (bm : list Z) (ps : list Particle.t) : bool :=
  forallb (fun cx => forallb (cell_checkb bm ps cx) (range n)) (range 32).

(** The particles [init_particles] is written to seed: rows 0 and 1 of
    columns 0 to 31, at rest. *)
Definition seeded_particles (c : color) : list Particle.t :=
  flat_map (fun cx =>
    map (fun cy => Particle.mk (inject_Z (cx * 256)) (inject_Z (cy * 256))
                     0 0 c) (range 2)) (range 32).

Definition in_boundsb (self : Simulation) (p : Particle.t) : bool :=
  Qle_bool 0 (Particle.x p) && Qle_bool (Particle.x p) (inject_Z (pwidth self))
  && Qle_bool 0 (Particle.y p)
  && Qle_bool (Particle.y p) (inject_Z (pheight self)).

(** What every step of a 32-wide engine keeps. *)
Definition engine_invariant (self : Simulation) : Prop :=
  well_formed self /\ width self = 32
  /\ Z.of_nat (length (bitmap self)) = height self
  /\ counted (height self) (bitmap self) (particles self).

(** ** Tactics *)

(** Closes a conjunction of closed equations by evaluation, left to
    right, so that each conjunct can fix what the next ones mention. *)
Ltac by_evaluation :=
  repeat (split; [vm_compute; reflexivity|]); vm_compute; reflexivity.

(** ** Further notions *)

(** A number without fractional part. *)
Definition integral (q : Q) : Prop := (inject_Z (py_int q) == q)%Q.

(** A value of the [uint32] array. *)
Definition uint32 (w : Z) : Prop := 0 <= w < 2 ^ 32.

(** All velocities are zero. *)
Definition at_rest (p : Particle.t) : Prop :=
  (Particle.vx p == 0)%Q /\ (Particle.vy p == 0)%Q.

(** The planar acceleration of a tick: [ax] and [ay] after the z part has
    been subtracted. *)
Definition accel_of (self : Simulation) : Q * Q :=
  let '(g0, g1, g2) := gravity self in
  let az := (Qabs (g2 * grav_scale self) / 8)%Q in
  ((g0 * grav_scale self - az)%Q, (g1 * grav_scale self - az)%Q).

(** The scenario engine after one tick. *)
Definition scenario_after : Simulation :=
  mkSimulation (0, 0, 0)%Q 32 32 7936 7936 1 (1 # 2) 1
    (<[5%nat := 96]> (replicate 32 0))
    [Particle.mk (inject_Z 1280) (10240 # 8) (-256 # 2) (0 # 8) white].

(** The scenario engine with gravity [(0, 0, 1)]: the jitter ceiling is
    [5/16]. *)
Definition tilted_engine : Simulation :=
  with_gravity scenario_engine (0, 0, 1)%Q.

(** [gravity] is [(0, 0, 0)], as numbers. *)
Definition zero_gravity (self : Simulation) : Prop :=
  let '(g0, g1, g2) := gravity self in
  (g0 == 0)%Q /\ (g1 == 0)%Q /\ (g2 == 0)%Q.

(** How far a tick may carry a particle: at most [GRID_MULTIPLIER] along
    each axis, hence at most into a neighbouring cell. *)
Definition one_cell_apart (p p' : Particle.t) : Prop :=
  (Particle.x p - 256 <= Particle.x p' <= Particle.x p + 256)%Q
  /\ (Particle.y p - 256 <= Particle.y p' <= Particle.y p + 256)%Q
  /\ Z.abs (cell (Particle.x p') - cell (Particle.x p)) <= 1
  /\ Z.abs (cell (Particle.y p') - cell (Particle.y p)) <= 1.

(** A Python [int] of magnitude at most [2^40], as a number. *)
Definition small_int (v : Q) : bool :=
  (Qden v =? 1)%positive && (Z.abs (Qnum v) <=? 2 ^ 40).

Definition small_int_particle (p : Particle.t) : bool :=
  small_int (Particle.x p) && small_int (Particle.y p)
  && small_int (Particle.vx p) && small_int (Particle.vy p).

(** A state of small integers: the gravity, the positions and the
    velocities are [int]s of magnitude at most [2^40], [grav_scale] is 1
    and [bounce_scale] is 0.5, as after [__init__].  Every sum, product
    and quotient of one [tick] from such a state is a multiple of [1/8]
    below [2^44], which a [float] holds, so the source computes the
    numbers [tick] does. *)
Definition integer_state (self : Simulation) : Prop :=
  (let '(g0, g1, g2) := gravity self in
   small_int g0 && small_int g1 && small_int g2 = true)
  /\ grav_scale self = 1%Q
  /\ bounce_scale self = (1 # 2)%Q
  /\ Forall (fun p => small_int_particle p = true) (particles self).

(** A 32x32 engine with zero gravity and one particle at rest in cell
    (5, 5). *)
Definition resting_particle : Particle.t :=
  Particle.mk (inject_Z (5 * 256)) (inject_Z (5 * 256)) 0 0 white.

Definition resting_engine : Simulation :=
  mkSimulation (0, 0, 0)%Q 32 32 7936 7936 1 (1 # 2) 0
    (<[5%nat := 32]> (replicate 32 0)) [resting_particle].

(** [resting_particle] after a move: the sums [x + 0] are not reduced. *)
Definition resting_particle_moved : Particle.t :=
  Particle.mk (inject_Z (5 * 256) + 0) (inject_Z (5 * 256) + 0) 0 0 white.

(** A particle at cell (5, 5) falling with [vy = 256] onto the occupied
    cell (5, 6), in the bitmap of [diagonal_engine]. *)
Definition falling_particle : Particle.t :=
  Particle.mk (inject_Z (5 * 256)) (inject_Z (5 * 256)) 0 256 white.

Definition floor_bitmap : list Z :=
  <[6%nat := 32]> (<[5%nat := 32]> (replicate 32 0)).

(** A particle at rest in cell (7, 7). *)
Definition second_particle : Particle.t :=
  Particle.mk (inject_Z (7 * 256)) (inject_Z (7 * 256)) 0 0 white.

(** ** The window of main.py

    Of [ParticleWindow] the embedding keeps what is computed from the
    engine: the gravity the mouse sets and the buffers [update] fills.
    Window, shaders and drawing are not modelled. *)

Definition SIM_HEIGHT : Z := 32.
Definition SIM_WIDTH : Z := 32.
Definition DISPLAY_SCALE : Z := 16.
Definition GRAVITY_SCALE : Z := 64.

(** [on_mouse_motion(x, y, dx, dy)]; [width] and [height] are what
    [self.get_size()] returns, and [None] is the [ZeroDivisionError] of
    [x/width] or [y/height]. *)
Definition on_mouse_motion (width height : Z) (sim : Simulation) (x y : Z)
  : option Simulation :=
  if (width =? 0) || (height =? 0) then None
  else
    let '(_, _, g2) := gravity sim in
    Some (with_gravity sim
            (((inject_Z x / inject_Z width - (1 # 2))
              * inject_Z GRAVITY_SCALE)%Q,
             ((inject_Z y / inject_Z height - (1 # 2))
              * inject_Z GRAVITY_SCALE)%Q,
             g2)).

(** What the program does with its engine once the window runs: the
    clock calls [update], which ticks, and the mouse sets the gravity. *)
Inductive main_step : Simulation -> Simulation -> Prop :=
| main_update (rng : nat -> Z) (sim sim' : Simulation) :
    tick rng sim = OK sim' -> main_step sim sim'
| main_mouse (width height x y : Z) (sim sim' : Simulation) :
    on_mouse_motion width height sim x y = Some sim' -> main_step sim sim'.

(** The vertices [update] computes for the particles:
    [particle.x/s + s/2, particle.y/s + s/2] with
    [s = GRID_MULTIPLIER/DISPLAY_SCALE]. *)
Definition display_coordinate (v : Q) : Q :=
  let s := (inject_Z GRID_MULTIPLIER / inject_Z DISPLAY_SCALE)%Q in
  (v / s + s / 2)%Q.

Definition particle_vertices (sim : Simulation) : list Q :=
  flat_map (fun p => [display_coordinate (Particle.x p);
                      display_coordinate (Particle.y p)]) (particles sim).

(** [c[start:stop] = t] for a list [c]: the bounds are counted from the
    end when negative and clipped to the list, and an empty or inverted
    range inserts at [start]. *)
Definition slice_index (n i : Z) : Z :=
  if i <? 0 then Z.max (i + n) 0 else Z.min i n.

Definition slice_assign {A : Type} (c : list A) (start stop : Z) (t : list A)
  : list A :=
  let n := Z.of_nat (length c) in
  let lo := slice_index n start in
  let hi := Z.max lo (slice_index n stop) in
  take (Z.to_nat lo) c ++ t ++ drop (Z.to_nat hi) c.

(** The three numbers [update] writes for the cell [(x, y)] in its first
    loop. *)
Definition cell_color (sim : Simulation) (x y : Z) : result (list Q) :=
  let* b := truthy (get_pixel (bitmap sim) (inject_Z x) (inject_Z y)) in
  OK (if b then [1; 1; 1 # 2]%Q
      else [1 # 2; inject_Z x / 128; inject_Z y / 128]%Q).

Definition cell_colors (sim : Simulation) : result (list Q) :=
  for_each (range (Z.to_nat SIM_WIDTH)) (fun x c =>
    for_each (range (Z.to_nat SIM_HEIGHT)) (fun y c =>
      let* col := cell_color sim x y in
      OK (c ++ col)) c) [].

Definition color_list (c : color) : list Q :=
  let '(r, g, b) := c in [inject_Z r; inject_Z g; inject_Z b].

(** [c[idx:idx+3] = particle.c] *)
Definition paint (c : list Q) (particle : Particle.t) : list Q :=
  let idx := (cell (Particle.x particle) * SIM_WIDTH
              + cell (Particle.y particle)) * 3 in
  slice_assign c idx (idx + 3) (color_list (Particle.c particle)).

(** The list [update] assigns to [self.pixels.colors]. *)
Definition pixel_colors (sim : Simulation) : result (list Q) :=
  let* c := cell_colors sim in
  OK (fold_left paint (particles sim) c).

(** The last particle of the sequence that lies in cell [(cx, cy)]. *)
Fixpoint last_in_cell (ps : list Particle.t) (cx cy : Z)
  : option Particle.t :=
  match ps with
  | [] => None
  | p :: ps' =>
      match last_in_cell ps' cx cy with
      | Some q => Some q
      | None => if in_cell cx cy p then Some p else None
      end
  end.

(** What the window shows for cell [(cx, cy)]: the colour of the last
    particle in it, else yellow when the cell is set, else a gradient. *)
Definition shown (sim : Simulation) (cx cy : Z) : list Q :=
  match last_in_cell (particles sim) cx cy with
  | Some p => color_list (Particle.c p)
  | None =>
      if pixel_is_set (bitmap sim) cx cy then [1; 1; 1 # 2]%Q
      else [1 # 2; inject_Z cx / 128; inject_Z cy / 128]%Q
  end.

(** Where the numbers of cell [(cx, cy)] start in the list. *)
Definition slot (cx cy : Z) : nat := Z.to_nat ((cx * SIM_WIDTH + cy) * 3).

(** * Properties *)

(** ** Numbers *)

Lemma Qltb_lt (a b : Q) : Qltb a b = true <-> (a < b)%Q.
Proof.
  unfold Qltb. rewrite negb_true_iff, <- not_true_iff_false, Qle_bool_iff.
  split; [apply Qnot_le_lt | apply Qlt_not_le].
Qed.

Lemma Qltb_ge (a b : Q) : Qltb a b = false <-> (b <= a)%Q.
Proof.
  unfold Qltb. rewrite negb_false_iff. apply Qle_bool_iff.
Qed.

Lemma py_int_floor (v : Q) : (0 <= v)%Q -> py_int v = Qfloor v.
Proof.
  destruct v as [n d]. unfold Qle, py_int, Qfloor. simpl. intros Hn.
  apply Z.quot_div_nonneg; lia.
Qed.

Lemma py_int_inject_Z (z : Z) : py_int (inject_Z z) = z.
Proof. unfold py_int. simpl. apply Z.quot_1_r. Qed.

Lemma to_grid_scale (v : Q) : (to_grid v == v * (1 # 256))%Q.
Proof. unfold to_grid, Qdiv. reflexivity. Qed.

Lemma cell_bounds (v : Q) :
  (0 <= v)%Q ->
  (inject_Z (cell v) * 256 <= v)%Q /\ (v < (inject_Z (cell v) + 1) * 256)%Q.
Proof.
  intros Hv. unfold cell.
  pose proof (to_grid_scale v) as E.
  assert (Hg : (0 <= to_grid v)%Q) by lra.
  rewrite (py_int_floor _ Hg).
  pose proof (Qfloor_le (to_grid v)) as Hlo.
  pose proof (Qlt_floor (to_grid v)) as Hhi.
  rewrite inject_Z_plus in Hhi.
  change (inject_Z 1) with 1%Q in Hhi. split; lra.
Qed.

Lemma cell_nonneg (v : Q) : (0 <= v)%Q -> 0 <= cell v.
Proof.
  intros Hv. destruct (cell_bounds v Hv) as [_ Chi].
  assert (H : (inject_Z (-1) < inject_Z (cell v))%Q).
  { change (inject_Z (-1)) with (-1)%Q. lra. }
  rewrite <- Zlt_Qlt in H. lia.
Qed.

(** A coordinate inside [[0, n*256 - 256]] lies in a cell of [[0, n)]. *)
Lemma cell_in_grid (v : Q) (n : Z) :
  (0 <= v)%Q -> (v <= inject_Z (n * GRID_MULTIPLIER - GRID_MULTIPLIER))%Q ->
  0 <= cell v < n.
Proof.
  intros Hv Hn. split; [now apply cell_nonneg|].
  destruct (cell_bounds v Hv) as [Clo _].
  unfold GRID_MULTIPLIER in Hn.
  unfold Z.sub in Hn. rewrite inject_Z_plus, inject_Z_mult in Hn.
  change (inject_Z 256) with 256%Q in Hn.
  change (inject_Z (- (256))) with (-256)%Q in Hn.
  assert (H : (inject_Z (cell v) < inject_Z n)%Q) by lra.
  now rewrite <- Zlt_Qlt in H.
Qed.

(** Moving by at most one cell width changes the cell by at most one. *)
Lemma cell_step (a b : Q) :
  (0 <= a)%Q -> (0 <= b)%Q -> (a - 256 <= b)%Q -> (b <= a + 256)%Q ->
  cell a - 1 <= cell b <= cell a + 1.
Proof.
  intros Ha Hb Hlo Hhi.
  destruct (cell_bounds a Ha) as [Alo Ahi].
  destruct (cell_bounds b Hb) as [Blo Bhi].
  assert (H1 : (inject_Z (cell b) < inject_Z (cell a + 2))%Q).
  { rewrite inject_Z_plus. change (inject_Z 2) with 2%Q. lra. }
  assert (H2 : (inject_Z (cell a) < inject_Z (cell b + 2))%Q).
  { rewrite inject_Z_plus. change (inject_Z 2) with 2%Q. lra. }
  rewrite <- Zlt_Qlt in H1, H2. lia.
Qed.

(** ** The bitmap *)

Lemma np_index_in_range (n i : Z) :
  0 <= i < n -> np_index n i = OK (Z.to_nat i).
Proof.
  intros H. unfold np_index.
  destruct (Z.leb_spec 0 i), (Z.ltb_spec i n); simpl; try lia. reflexivity.
Qed.

Lemma np_index_raises (n i : Z) :
  0 <= n ->
  (np_index n i = Raise IndexError_bitmap <-> i < - n \/ n <= i).
Proof.
  intros Hn. unfold np_index.
  destruct (Z.leb_spec 0 i), (Z.ltb_spec i n), (Z.leb_spec (- n) i),
    (Z.ltb_spec i 0); simpl; split; intros Hx; try discriminate;
    try reflexivity; lia.
Qed.

Lemma np_index_lt (n i : Z) (k : nat) :
  np_index n i = OK k -> (Z.of_nat k < n) /\ (- n <= i < n).
Proof.
  unfold np_index.
  destruct (Z.leb_spec 0 i), (Z.ltb_spec i n), (Z.leb_spec (- n) i),
    (Z.ltb_spec i 0); simpl; intros Hx; inversion Hx; lia.
Qed.

Lemma np_get_in_range (a : list Z) (i : Z) :
  0 <= i < Z.of_nat (length a) ->
  exists w, a !! Z.to_nat i = Some w /\ np_get a i = OK w.
Proof.
  intros H. unfold np_get. rewrite np_index_in_range by assumption. simpl.
  destruct (lookup_lt_is_Some_2 a (Z.to_nat i)) as [w Hw]; [lia|].
  exists w. now rewrite Hw.
Qed.

Lemma np_get_raises (a : list Z) (i : Z) :
  (exists e, np_get a i = Raise e) <->
  i < - Z.of_nat (length a) \/ Z.of_nat (length a) <= i.
Proof.
  unfold np_get. split.
  - intros [e He]. destruct (np_index _ i) as [k|e'] eqn:Hk; simpl in He.
    + apply np_index_lt in Hk as [Hk _].
      destruct (lookup_lt_is_Some_2 a k) as [w Hw]; [lia|].
      rewrite Hw in He. discriminate.
    + unfold np_index in Hk.
      destruct (Z.leb_spec 0 i), (Z.ltb_spec i (Z.of_nat (length a))),
        (Z.leb_spec (- Z.of_nat (length a)) i), (Z.ltb_spec i 0);
        simpl in Hk; try discriminate; lia.
  - intros H. exists IndexError_bitmap.
    assert (Hr : np_index (Z.of_nat (length a)) i = Raise IndexError_bitmap)
      by (apply np_index_raises; lia).
    now rewrite Hr.
Qed.

Lemma bit_of_testbit (x k : Z) :
  0 <= k -> Z.testbit (bit_of x) k = (k =? x mod 32).
Proof.
  intros Hk. unfold bit_of.
  assert (0 <= x mod 32 < 32) by (apply Z.mod_pos_bound; lia).
  rewrite Z.shiftl_1_l, Z.pow2_bits_eqb by lia. apply Z.eqb_sym.
Qed.

(** [w & (1 << k)] is non-zero exactly when bit [k] of [w] is set. *)
Lemma land_bit_of (w x : Z) :
  negb (Z.land w (bit_of x) =? 0) = Z.testbit w (x mod 32).
Proof.
  assert (Hm : 0 <= x mod 32 < 32) by (apply Z.mod_pos_bound; lia).
  destruct (Z.testbit w (x mod 32)) eqn:Hb.
  - apply negb_true_iff, Z.eqb_neq. intros H0.
    assert (Hc : Z.testbit (Z.land w (bit_of x)) (x mod 32) = true).
    { rewrite Z.land_spec, Hb, bit_of_testbit, Z.eqb_refl by lia. reflexivity. }
    rewrite H0, Z.bits_0 in Hc. discriminate.
  - apply negb_false_iff, Z.eqb_eq. apply Z.bits_inj'. intros k Hk.
    rewrite Z.land_spec, Z.bits_0, bit_of_testbit by assumption.
    destruct (Z.eqb_spec k (x mod 32)) as [->|]; [rewrite Hb|];
      now rewrite ?andb_false_r.
Qed.

Lemma set_bit_testbit (w x k : Z) :
  0 <= k < 32 ->
  Z.testbit (to_uint32 (Z.lor w (bit_of x))) k
  = Z.testbit w k || (k =? x mod 32).
Proof.
  intros Hk. unfold to_uint32.
  rewrite Z.mod_pow2_bits_low, Z.lor_spec, bit_of_testbit by lia.
  reflexivity.
Qed.

Lemma clear_bit_testbit (w x k : Z) :
  0 <= k < 32 ->
  Z.testbit (to_uint32 (Z.land w (Z.lnot (bit_of x)))) k
  = Z.testbit w k && negb (k =? x mod 32).
Proof.
  intros Hk. unfold to_uint32.
  rewrite Z.mod_pow2_bits_low, Z.land_spec, Z.lnot_spec, bit_of_testbit by lia.
  reflexivity.
Qed.

(** The pixel methods read their arguments through [int]. *)
Lemma get_pixel_int (bm : list Z) (x y : Q) :
  get_pixel bm x y = get_pixel bm (inject_Z (py_int x)) (inject_Z (py_int y)).
Proof. unfold get_pixel. now rewrite !py_int_inject_Z. Qed.

Lemma set_pixel_int (bm : list Z) (x y : Q) :
  set_pixel bm x y = set_pixel bm (inject_Z (py_int x)) (inject_Z (py_int y)).
Proof. unfold set_pixel. now rewrite !py_int_inject_Z. Qed.

Lemma clear_pixel_int (bm : list Z) (x y : Q) :
  clear_pixel bm x y
  = clear_pixel bm (inject_Z (py_int x)) (inject_Z (py_int y)).
Proof. unfold clear_pixel. now rewrite !py_int_inject_Z. Qed.

(** Inside the array the three methods do not raise; they work on bit
    [x % 32] of word [y]. *)
Lemma get_pixel_in_range (bm : list Z) (cx cy : Z) :
  0 <= cy < Z.of_nat (length bm) ->
  exists w, bm !! Z.to_nat cy = Some w /\
    truthy (get_pixel bm (inject_Z cx) (inject_Z cy))
    = OK (Z.testbit w (cx mod 32)).
Proof.
  intros Hy. destruct (np_get_in_range bm cy Hy) as (w & Hw & Hg).
  exists w. split; [assumption|].
  unfold truthy, get_pixel. rewrite !py_int_inject_Z, Hg. simpl.
  now rewrite land_bit_of.
Qed.

Lemma pixel_is_set_in_range (bm : list Z) (cx cy : Z) (w : Z) :
  0 <= cy -> bm !! Z.to_nat cy = Some w ->
  pixel_is_set bm cx cy = Z.testbit w (cx mod 32).
Proof.
  intros Hy Hw. unfold pixel_is_set.
  assert (Hr : 0 <= cy < Z.of_nat (length bm)).
  { apply lookup_lt_Some in Hw. lia. }
  destruct (get_pixel_in_range bm cx cy Hr) as (w' & Hw' & ->).
  congruence.
Qed.

Lemma set_pixel_in_range (bm : list Z) (cx cy : Z) :
  0 <= cy < Z.of_nat (length bm) ->
  exists w, bm !! Z.to_nat cy = Some w /\
    set_pixel bm (inject_Z cx) (inject_Z cy)
    = OK (<[Z.to_nat cy := to_uint32 (Z.lor w (bit_of cx))]> bm).
Proof.
  intros Hy. destruct (np_get_in_range bm cy Hy) as (w & Hw & Hg).
  exists w. split; [assumption|].
  unfold set_pixel, np_set. rewrite !py_int_inject_Z, Hg. simpl.
  now rewrite np_index_in_range.
Qed.

Lemma clear_pixel_in_range (bm : list Z) (cx cy : Z) :
  0 <= cy < Z.of_nat (length bm) ->
  exists w, bm !! Z.to_nat cy = Some w /\
    clear_pixel bm (inject_Z cx) (inject_Z cy)
    = OK (<[Z.to_nat cy := to_uint32 (Z.land w (Z.lnot (bit_of cx)))]> bm).
Proof.
  intros Hy. destruct (np_get_in_range bm cy Hy) as (w & Hw & Hg).
  exists w. split; [assumption|].
  unfold clear_pixel, np_set. rewrite !py_int_inject_Z, Hg. simpl.
  now rewrite np_index_in_range.
Qed.

Lemma set_pixel_length (bm bm' : list Z) (x y : Q) :
  set_pixel bm x y = OK bm' -> length bm' = length bm.
Proof.
  unfold set_pixel, np_set. destruct (np_get bm _); simpl; [|discriminate].
  destruct (np_index _ _); simpl; [|discriminate].
  intros H. inversion H. apply length_insert.
Qed.

Lemma clear_pixel_length (bm bm' : list Z) (x y : Q) :
  clear_pixel bm x y = OK bm' -> length bm' = length bm.
Proof.
  unfold clear_pixel, np_set. destruct (np_get bm _); simpl; [|discriminate].
  destruct (np_index _ _); simpl; [|discriminate].
  intros H. inversion H. apply length_insert.
Qed.

(** [get] after [set], for rows inside the array. *)
Lemma pixel_is_set_after_set (bm bm' : list Z) (cx cy cx' cy' : Z) :
  0 <= cy < Z.of_nat (length bm) -> 0 <= cy' < Z.of_nat (length bm) ->
  set_pixel bm (inject_Z cx) (inject_Z cy) = OK bm' ->
  pixel_is_set bm' cx' cy'
  = ((cy' =? cy) && (cx' mod 32 =? cx mod 32)) || pixel_is_set bm cx' cy'.
Proof.
  intros Hy Hy' Hs.
  destruct (set_pixel_in_range bm cx cy Hy) as (w & Hw & Hs').
  rewrite Hs' in Hs. inversion Hs; subst bm'; clear Hs Hs'.
  assert (Hm : 0 <= cx' mod 32 < 32) by (apply Z.mod_pos_bound; lia).
  assert (Hlt : (Z.to_nat cy < length bm)%nat) by lia.
  destruct (Z.eqb_spec cy' cy) as [->|Hne]; simpl.
  - rewrite (pixel_is_set_in_range _ cx' cy _ (proj1 Hy)
               (list_lookup_insert_eq bm _ _ Hlt)).
    rewrite (pixel_is_set_in_range _ cx' cy w (proj1 Hy) Hw).
    rewrite set_bit_testbit by assumption. apply orb_comm.
  - destruct (lookup_lt_is_Some_2 bm (Z.to_nat cy')) as [w' Hw']; [lia|].
    rewrite (pixel_is_set_in_range _ cx' cy' w' (proj1 Hy')).
    + now rewrite (pixel_is_set_in_range _ cx' cy' w' (proj1 Hy') Hw').
    + rewrite list_lookup_insert_ne by lia. assumption.
Qed.

(** [get] after [clear], for rows inside the array. *)
Lemma pixel_is_set_after_clear (bm bm' : list Z) (cx cy cx' cy' : Z) :
  0 <= cy < Z.of_nat (length bm) -> 0 <= cy' < Z.of_nat (length bm) ->
  clear_pixel bm (inject_Z cx) (inject_Z cy) = OK bm' ->
  pixel_is_set bm' cx' cy'
  = negb ((cy' =? cy) && (cx' mod 32 =? cx mod 32)) && pixel_is_set bm cx' cy'.
Proof.
  intros Hy Hy' Hs.
  destruct (clear_pixel_in_range bm cx cy Hy) as (w & Hw & Hs').
  rewrite Hs' in Hs. inversion Hs; subst bm'; clear Hs Hs'.
  assert (Hm : 0 <= cx' mod 32 < 32) by (apply Z.mod_pos_bound; lia).
  assert (Hlt : (Z.to_nat cy < length bm)%nat) by lia.
  destruct (Z.eqb_spec cy' cy) as [->|Hne]; simpl.
  - rewrite (pixel_is_set_in_range _ cx' cy _ (proj1 Hy)
               (list_lookup_insert_eq bm _ _ Hlt)).
    rewrite (pixel_is_set_in_range _ cx' cy w (proj1 Hy) Hw).
    rewrite clear_bit_testbit by assumption. apply andb_comm.
  - destruct (lookup_lt_is_Some_2 bm (Z.to_nat cy')) as [w' Hw']; [lia|].
    rewrite (pixel_is_set_in_range _ cx' cy' w' (proj1 Hy')).
    + now rewrite (pixel_is_set_in_range _ cx' cy' w' (proj1 Hy') Hw').
    + rewrite list_lookup_insert_ne by lia. assumption.
Qed.

(** ** Construction *)

Lemma for_each_raises {A S : Type} (P : exn -> Prop) (xs : list A)
    (body : A -> S -> result S) :
  (forall a s e, body a s = Raise e -> P e) ->
  forall s e, for_each xs body s = Raise e -> P e.
Proof.
  intros Hbody. induction xs as [|a xs IH]; simpl; intros s e H.
  - discriminate.
  - destruct (body a s) as [s'|e'] eqn:Hb; simpl in H.
    + eapply IH, H.
    + inversion H; subst. eapply Hbody, Hb.
Qed.

Lemma set_pixel_raises_IndexError (bm : list Z) (x y : Q) (e : exn) :
  set_pixel bm x y = Raise e -> e = IndexError_bitmap.
Proof.
  unfold set_pixel, np_get, np_set, np_index.
  repeat match goal with
         | |- context [if ?b then _ else _] => destruct b; simpl
         | |- context [match ?l !! ?k with _ => _ end] =>
             destruct (l !! k); simpl
         end; intros H; inversion H; reflexivity.
Qed.

Lemma add_particle_raises_IndexError (self : Simulation) (p : Particle.t)
    (e : exn) :
  add_particle self p = Raise e -> e = IndexError_bitmap.
Proof.
  unfold add_particle.
  destruct (set_pixel _ _ _) as [bm|e'] eqn:Hs; simpl; intros H;
    inversion H; subst. eapply set_pixel_raises_IndexError, Hs.
Qed.

Lemma init_particles_raises (c0 : option color) (self : Simulation) (e : exn) :
  init_particles c0 self = Raise e ->
  e = TypeError_missing_argument_c \/ e = IndexError_bitmap.
Proof.
  unfold init_particles.
  pose (P := fun e => e = TypeError_missing_argument_c \/ e = IndexError_bitmap).
  apply (for_each_raises P). intros a s. apply (for_each_raises P).
  intros y s1 e1 H. unfold P.
  destruct c0 as [c|]; simpl in H.
  - right. eapply add_particle_raises_IndexError, H.
  - left. now inversion H.
Qed.

Lemma init_fields_guard (w h : Z) :
  init_fields w h = Raise ValueError_not_multiple_of_32
  <-> (w mod 32 <> 0 \/ h mod 32 <> 0).
Proof.
  unfold init_fields.
  destruct (Z.eqb_spec (w mod 32) 0), (Z.eqb_spec (h mod 32) 0); simpl;
    try (split; [intros _; lia | reflexivity]).
  destruct (_ <? 0); split; intros H; try discriminate; lia.
Qed.

(** The array length [int(height * (width / 32))]. *)
Lemma bitmap_length_formula (w h : Z) :
  py_int (inject_Z h * (inject_Z w / 32)) = Z.quot (h * w) 32.
Proof.
  unfold py_int. simpl. now rewrite Z.mul_1_r.
Qed.

Lemma init_fields_positive (w h : Z) :
  0 < w -> 0 < h -> w mod 32 = 0 -> h mod 32 = 0 ->
  init_fields w h
  = OK (mkSimulation (0, 0, 0)%Q w h
          (w * GRID_MULTIPLIER - GRID_MULTIPLIER)
          (h * GRID_MULTIPLIER - GRID_MULTIPLIER) 1 (1 # 2) 0
          (replicate (Z.to_nat (Z.quot (h * w) 32)) 0) []).
Proof.
  intros Hw Hh Mw Mh. unfold init_fields.
  rewrite Mw, Mh, bitmap_length_formula. simpl.
  destruct (Z.ltb_spec (Z.quot (h * w) 32) 0) as [Hneg|]; [|reflexivity].
  pose proof (Z.quot_pos (h * w) 32). lia.
Qed.

(** C1. [create(width, height)] with positive multiples of 32 does not
    return an engine: [init_particles] calls [Particle] with four of its
    five required fields, and construction ends in [TypeError]. *)
Theorem create_valid_raises_TypeError (w h : Z) :
  positive_multiple_of_32 w -> positive_multiple_of_32 h ->
  create w h = Raise TypeError_missing_argument_c.
Proof.
  intros [Hw Mw] [Hh Mh]. unfold create, Simulation_init.
  rewrite init_fields_positive by assumption. reflexivity.
Qed.

Lemma create_valid_raises_TypeError_witness :
  positive_multiple_of_32 32 /\ positive_multiple_of_32 32 /\
  create 32 32 = Raise TypeError_missing_argument_c.
Proof.
  assert (H : positive_multiple_of_32 32) by (split; [lia | reflexivity]).
  split; [exact H|]. split; [exact H|].
  apply (create_valid_raises_TypeError 32 32 H H).
Defined.

(** C7, as the code has it: the configuration error of the guard is
    raised exactly when a dimension is not a multiple of 32, whatever its
    sign, and a raising construction returns no engine. *)
Theorem configuration_error_iff_not_multiple (c0 : option color) (w h : Z) :
  (Simulation_init c0 w h = Raise ValueError_not_multiple_of_32
   <-> (w mod 32 <> 0 \/ h mod 32 <> 0))
  /\ (forall e, Simulation_init c0 w h = Raise e ->
      forall self, Simulation_init c0 w h <> OK self).
Proof.
  split.
  - rewrite <- init_fields_guard. unfold Simulation_init.
    destruct (init_fields w h) as [s|e] eqn:Hf; simpl.
    + split; [|discriminate]. intros H.
      apply init_particles_raises in H as [H|H]; discriminate.
    + reflexivity.
  - intros e He self Hs. rewrite He in Hs. discriminate.
Qed.

(** C7, counterexample: [-32] is not a positive multiple of 32, yet
    [create(-32, -32)] passes the guard and raises no configuration
    error. *)
Lemma create_negative_no_configuration_error :
  ~ ((exists e, create (-32) (-32) = Raise e /\ is_ValueError e = true)
     <-> ~ (positive_multiple_of_32 (-32) /\ positive_multiple_of_32 (-32))).
Proof.
  intros [_ H].
  destruct H as (e & He & Hv).
  - intros [[Hpos _] _]. lia.
  - vm_compute in He. inversion He; subst. discriminate.
Qed.

(** With the colour supplied, negative multiples of 32 yield an engine. *)
Lemma Simulation_init_negative_succeeds (c : color) :
  exists self, Simulation_init (Some c) (-32) (-32) = OK self
               /\ pwidth self = -8448.
Proof. eexists. split; [vm_compute; reflexivity | reflexivity]. Qed.

(** ** Pixel addressing *)

(** C2, on a 64x64 grid: setting cell [(32, 0)] writes bit 0 of word 0,
    the bit of cell [(0, 0)], and leaves the word the specification
    addresses untouched; [get] of cell [(0, 0)] then answers "set", and
    [clear(32, 0)] clears cell [(0, 0)] again. *)
Theorem pixel_ops_ignore_column_word :
  exists self bm1 bm2,
    init_fields 64 64 = OK self
    /\ length (bitmap self) = 128%nat
    /\ pixel_is_set (bitmap self) 0 0 = false
    /\ set_pixel (bitmap self) 32 0 = OK bm1
    /\ pixel_is_set bm1 0 0 = true
    /\ bm1 !! Z.to_nat (spec_word 64 0 0) = Some 1
    /\ bm1 !! Z.to_nat (spec_word 64 32 0) = Some 0
    /\ set_pixel (bitmap self) 0 0 = OK bm1
    /\ clear_pixel bm1 32 0 = OK bm2
    /\ pixel_is_set bm2 0 0 = false.
Proof.
  do 3 eexists. by_evaluation.
Qed.

(** On a grid of width 32 the three methods agree with the addressing of
    the specification: inside the grid each cell has a bit of its own. *)
Lemma spec_word_width_32 (cx cy : Z) :
  0 <= cx < 32 -> spec_word 32 cx cy = cy /\ spec_bit cx = cx mod 32.
Proof.
  intros H. unfold spec_word, spec_bit. split; [|reflexivity].
  rewrite (Z.div_small cx 32) by assumption. change (32 / 32) with 1. lia.
Qed.

Lemma pixel_set_get_width_32 (bm bm' : list Z) (cx cy cx' cy' : Z) :
  0 <= cx < 32 -> 0 <= cx' < 32 ->
  0 <= cy < Z.of_nat (length bm) -> 0 <= cy' < Z.of_nat (length bm) ->
  set_pixel bm (inject_Z cx) (inject_Z cy) = OK bm' ->
  pixel_is_set bm' cx' cy'
  = ((cx' =? cx) && (cy' =? cy)) || pixel_is_set bm cx' cy'.
Proof.
  intros Hx Hx' Hy Hy' Hs.
  rewrite (pixel_is_set_after_set bm bm' cx cy cx' cy' Hy Hy' Hs).
  rewrite !Z.mod_small by assumption. f_equal. apply andb_comm.
Qed.

Lemma pixel_clear_get_width_32 (bm bm' : list Z) (cx cy cx' cy' : Z) :
  0 <= cx < 32 -> 0 <= cx' < 32 ->
  0 <= cy < Z.of_nat (length bm) -> 0 <= cy' < Z.of_nat (length bm) ->
  clear_pixel bm (inject_Z cx) (inject_Z cy) = OK bm' ->
  pixel_is_set bm' cx' cy'
  = negb ((cx' =? cx) && (cy' =? cy)) && pixel_is_set bm cx' cy'.
Proof.
  intros Hx Hx' Hy Hy' Hs.
  rewrite (pixel_is_set_after_clear bm bm' cx cy cx' cy' Hy Hy' Hs).
  rewrite !Z.mod_small by assumption. do 2 f_equal. apply andb_comm.
Qed.

(** ** Out-of-range access *)

Lemma np_set_after_get (bm : list Z) (i w v : Z) :
  np_get bm i = OK w -> exists bm', np_set bm i v = OK bm'.
Proof.
  unfold np_get, np_set.
  destruct (np_index _ i) as [k|e]; simpl; [|discriminate].
  intros _. eexists. reflexivity.
Qed.

(** The three methods raise exactly when the row [int(y)] is outside
    [[-len, len)]. *)
Lemma pixel_methods_raise (bm : list Z) (x y : Q) :
  let n := Z.of_nat (length bm) in
  let outside := py_int y < - n \/ n <= py_int y in
  ((exists e, get_pixel bm x y = Raise e) <-> outside)
  /\ ((exists e, set_pixel bm x y = Raise e) <-> outside)
  /\ ((exists e, clear_pixel bm x y = Raise e) <-> outside).
Proof.
  intros n outside. subst n outside.
  rewrite <- (np_get_raises bm (py_int y)).
  unfold get_pixel, set_pixel, clear_pixel.
  destruct (np_get bm (py_int y)) as [w|e] eqn:Hg; simpl.
  - destruct (np_set_after_get bm _ w (Z.lor w (bit_of (py_int x))) Hg)
      as [b1 ->].
    destruct (np_set_after_get bm _ w
                (Z.land w (Z.lnot (bit_of (py_int x)))) Hg) as [b2 ->].
    repeat split; intros [e He]; discriminate.
  - repeat split; intros _; exists e; reflexivity.
Qed.

Lemma pixel_methods_raise_IndexError (bm : list Z) (x y : Q) (e : exn) :
  get_pixel bm x y = Raise e \/ set_pixel bm x y = Raise e
  \/ clear_pixel bm x y = Raise e ->
  e = IndexError_bitmap.
Proof.
  unfold get_pixel, set_pixel, clear_pixel, np_get, np_set, np_index.
  repeat match goal with
         | |- context [if ?b then _ else _] => destruct b; simpl
         | |- context [match ?l !! ?k with _ => _ end] =>
             destruct (l !! k); simpl
         end; intros [H|[H|H]]; inversion H; reflexivity.
Qed.

(** A negative index inside [[-n, 0)] addresses the element [n + i]. *)
Lemma np_index_negative (n i : Z) :
  - n <= i < 0 -> np_index n i = np_index n (n + i).
Proof.
  intros H. rewrite (np_index_in_range n (n + i)) by lia. unfold np_index.
  destruct (Z.leb_spec 0 i); [lia|]. simpl.
  destruct (Z.leb_spec (- n) i); [|lia].
  destruct (Z.ltb_spec i 0); [|lia]. reflexivity.
Qed.

(** C8, as the code has it: [get], [set] and [clear] abort (with
    [IndexError]) exactly when the row [int(y)] is outside [[-len, len)]
    for [len] the length of the bitmap; a negative row inside that
    interval counts from the end, and no column makes them abort: the
    column is reduced modulo 32. *)
Theorem pixel_ops_raise_iff_row_outside (bm : list Z) (x y : Q) :
  let n := Z.of_nat (length bm) in
  let outside := py_int y < - n \/ n <= py_int y in
  ((exists e, get_pixel bm x y = Raise e) <-> outside)
  /\ ((exists e, set_pixel bm x y = Raise e) <-> outside)
  /\ ((exists e, clear_pixel bm x y = Raise e) <-> outside)
  /\ (forall e, get_pixel bm x y = Raise e \/ set_pixel bm x y = Raise e
                \/ clear_pixel bm x y = Raise e -> e = IndexError_bitmap)
  /\ get_pixel bm x y = get_pixel bm (inject_Z (py_int x mod 32)) y
  /\ set_pixel bm x y = set_pixel bm (inject_Z (py_int x mod 32)) y
  /\ clear_pixel bm x y = clear_pixel bm (inject_Z (py_int x mod 32)) y
  /\ (- n <= py_int y < 0 ->
      get_pixel bm x y = get_pixel bm x (inject_Z (n + py_int y))
      /\ set_pixel bm x y = set_pixel bm x (inject_Z (n + py_int y))
      /\ clear_pixel bm x y = clear_pixel bm x (inject_Z (n + py_int y))).
Proof.
  intros n outside.
  destruct (pixel_methods_raise bm x y) as (Hg & Hs & Hc).
  split; [exact Hg|]. split; [exact Hs|]. split; [exact Hc|].
  split; [apply pixel_methods_raise_IndexError|].
  assert (Hbit : bit_of (py_int (inject_Z (py_int x mod 32)))
                 = bit_of (py_int x)).
  { unfold bit_of. rewrite py_int_inject_Z. now rewrite Z.mod_mod by lia. }
  split; [unfold get_pixel; now rewrite Hbit|].
  split; [unfold set_pixel; now rewrite Hbit|].
  split; [unfold clear_pixel; now rewrite Hbit|].
  intros Hneg.
  assert (Hget : np_get bm (py_int y) = np_get bm (n + py_int y)).
  { unfold np_get. fold n. now rewrite (np_index_negative n _ Hneg). }
  assert (Hset : forall v,
             np_set bm (py_int y) v = np_set bm (n + py_int y) v).
  { intros v. unfold np_set. fold n.
    now rewrite (np_index_negative n _ Hneg). }
  unfold get_pixel, set_pixel, clear_pixel. rewrite !py_int_inject_Z.
  rewrite Hget. repeat split; try reflexivity;
    destruct (np_get bm (n + py_int y)); simpl; auto.
Qed.

(** C8, counterexample: on the 32x32 grid column 32 is outside the grid,
    and row -1 is too; [get] and [set] at [(32, 0)] return, [set] marks
    cell [(0, 0)], and [get] at [(0, -1)] reads the last row. *)
Lemma pixel_ops_out_of_range_return :
  exists self bm1 bm2,
    init_fields 32 32 = OK self
    /\ ~ (0 <= 32 < width self)
    /\ get_pixel (bitmap self) 32 0 = OK 0
    /\ set_pixel (bitmap self) 32 0 = OK bm1
    /\ pixel_is_set bm1 0 0 = true
    /\ ~ (0 <= -1 < height self)
    /\ set_pixel (bitmap self) 0 31 = OK bm2
    /\ get_pixel bm2 0 (-1) = OK 1.
Proof.
  do 3 eexists. split; [vm_compute; reflexivity|].
  split; [simpl; lia|]. do 3 (split; [vm_compute; reflexivity|]).
  split; [simpl; lia|]. by_evaluation.
Qed.

(** ** add_particle *)

Lemma count_in_cell_app (ps qs : list Particle.t) (cx cy : Z) :
  count_in_cell (ps ++ qs) cx cy
  = (count_in_cell ps cx cy + count_in_cell qs cx cy)%nat.
Proof. unfold count_in_cell. now rewrite filter_app, length_app. Qed.

Lemma count_in_cell_cons (p : Particle.t) (ps : list Particle.t) (cx cy : Z) :
  count_in_cell (p :: ps) cx cy
  = ((if in_cell cx cy p then 1 else 0) + count_in_cell ps cx cy)%nat.
Proof.
  unfold count_in_cell. rewrite filter_cons.
  destruct (in_cell cx cy p); simpl.
  - destruct (decide (true = true)); [reflexivity | congruence].
  - destruct (decide (false = true)); [discriminate | reflexivity].
Qed.

Lemma in_cell_own (p : Particle.t) :
  in_cell (cell (Particle.x p)) (cell (Particle.y p)) p = true.
Proof. unfold in_cell. now rewrite !Z.eqb_refl. Qed.

(** C10, as the code has it: [add_particle] checks nothing itself.  For
    a particle whose coordinates are at most [2^53] in magnitude, where
    the source's [x / GRID_MULTIPLIER] and [y / GRID_MULTIPLIER] are
    exact: when the row of the particle indexes the bitmap it appends the
    particle and sets the bit, otherwise it raises [IndexError]; adding
    into a cell of the grid whose bit is already set succeeds, changes no
    pixel and puts one more particle into that cell. *)
Theorem add_particle_no_validation (self : Simulation) (p : Particle.t) :
  let cx := cell (Particle.x p) in
  let cy := cell (Particle.y p) in
  let n := Z.of_nat (length (bitmap self)) in
  exact_coordinate (Particle.x p) -> exact_coordinate (Particle.y p) ->
  (- n <= cy < n ->
   exists self', add_particle self p = OK self'
     /\ particles self' = particles self ++ [p]
     /\ set_pixel (bitmap self) (to_grid (Particle.x p))
          (to_grid (Particle.y p)) = OK (bitmap self'))
  /\ (~ (- n <= cy < n) -> add_particle self p = Raise IndexError_bitmap)
  /\ (0 <= cy < n -> pixel_is_set (bitmap self) cx cy = true ->
      exists self', add_particle self p = OK self'
        /\ count_in_cell (particles self') cx cy
           = S (count_in_cell (particles self) cx cy)
        /\ forall cx' cy', 0 <= cy' < n ->
             pixel_is_set (bitmap self') cx' cy'
             = pixel_is_set (bitmap self) cx' cy').
Proof.
  intros cx cy n _ _.
  pose proof (pixel_methods_raise (bitmap self)
                (to_grid (Particle.x p)) (to_grid (Particle.y p)))
    as (_ & Hset & _). simpl in Hset. fold (cell (Particle.y p)) in Hset.
  fold cy n in Hset.
  assert (Hin : - n <= cy < n ->
                exists bm, set_pixel (bitmap self) (to_grid (Particle.x p))
                             (to_grid (Particle.y p)) = OK bm).
  { intros Hr. destruct (set_pixel _ _ _) as [bm|e] eqn:Hs; [eauto|].
    assert (Ho : cy < - n \/ n <= cy) by (apply Hset; eauto). lia. }
  split; [|split].
  - intros Hr. destruct (Hin Hr) as [bm Hbm]. unfold add_particle.
    rewrite Hbm. simpl. eexists. split; [reflexivity|]. split; reflexivity.
  - intros Hr. unfold add_particle.
    destruct (set_pixel _ _ _) as [bm|e] eqn:Hs; simpl.
    + assert (Hc : ~ (cy < - n \/ n <= cy)).
      { rewrite <- Hset. intros [e He]. discriminate. }
      lia.
    + now rewrite (set_pixel_raises_IndexError _ _ _ _ Hs).
  - intros Hr Hocc. destruct (Hin ltac:(lia)) as [bm Hbm].
    unfold add_particle. rewrite Hbm. simpl. eexists.
    split; [reflexivity|]. simpl. split.
    + rewrite count_in_cell_app, count_in_cell_cons.
      unfold cx, cy. rewrite in_cell_own. unfold count_in_cell. simpl. lia.
    + intros cx' cy' Hr'. rewrite set_pixel_int in Hbm.
      fold (cell (Particle.x p)) (cell (Particle.y p)) in Hbm.
      rewrite (pixel_is_set_after_set _ _ _ _ cx' cy' Hr Hr' Hbm).
      fold cx cy.
      destruct (Z.eqb_spec cy' cy) as [->|]; [|reflexivity].
      destruct (Z.eqb_spec (cx' mod 32) (cx mod 32)) as [Hm|]; [|reflexivity].
      simpl. symmetry.
      destruct (lookup_lt_is_Some_2 (bitmap self) (Z.to_nat cy)) as [w Hw];
        [lia|].
      rewrite (pixel_is_set_in_range _ cx' cy w (proj1 Hr) Hw), Hm.
      now rewrite <- (pixel_is_set_in_range _ cx cy w (proj1 Hr) Hw).
Qed.

(** C10, counterexample: on the 32x32 grid a particle of row 32 makes
    [add_particle] raise. *)
Lemma add_particle_can_raise :
  exists self,
    init_fields 32 32 = OK self
    /\ add_particle self (Particle.mk 0 (inject_Z (32 * 256)) 0 0 (0, 0, 0))
       = Raise IndexError_bitmap.
Proof. eexists. by_evaluation. Qed.

(** ** One tick: velocities *)

Lemma py_min_cases (a b : Q) :
  (py_min a b = a /\ (a <= b)%Q) \/ (py_min a b = b /\ (b < a)%Q).
Proof.
  unfold py_min. destruct (Qltb b a) eqn:E.
  - right. split; [reflexivity|]. now apply Qltb_lt.
  - left. split; [reflexivity|]. now apply Qltb_ge.
Qed.

Lemma py_max_cases (a b : Q) :
  (py_max a b = a /\ (b <= a)%Q) \/ (py_max a b = b /\ (a < b)%Q).
Proof.
  unfold py_max. destruct (Qltb a b) eqn:E.
  - right. split; [reflexivity|]. now apply Qltb_lt.
  - left. split; [reflexivity|]. now apply Qltb_ge.
Qed.

Lemma limit_velocity_range (v : Q) :
  (Qabs (limit_velocity v) <= inject_Z GRID_MULTIPLIER)%Q.
Proof.
  unfold limit_velocity, GRID_MULTIPLIER.
  change (inject_Z 256) with 256%Q. apply Qabs_Qle_condition.
  destruct (py_min_cases v 256) as [[-> H1]|[-> H1]];
    [destruct (py_max_cases v (-(256))) as [[-> H2]|[-> H2]]
    |destruct (py_max_cases 256 (-(256))) as [[-> H2]|[-> H2]]]; lra.
Qed.

Lemma update_velocity_spec (ax ay raz : Q) (rx ry : Z) (p p' : Particle.t) :
  update_velocity ax ay raz rx ry p = OK p' ->
  Particle.x p' = Particle.x p /\ Particle.y p' = Particle.y p
  /\ Particle.c p' = Particle.c p /\ limited p'.
Proof.
  unfold update_velocity.
  destruct (randint0 rx raz) as [jx|]; simpl; [|discriminate].
  destruct (randint0 ry raz) as [jy|]; simpl; [|discriminate].
  intros H. inversion H; subst; clear H. simpl.
  repeat split; apply limit_velocity_range.
Qed.

Lemma velocity_pass_spec (rng : nat -> Z) (ax ay raz : Q)
    (ps : list Particle.t) :
  forall k ps', velocity_pass rng k ax ay raz ps = OK ps' ->
  Forall2 (fun p p' =>
             Particle.x p' = Particle.x p /\ Particle.y p' = Particle.y p
             /\ Particle.c p' = Particle.c p /\ limited p') ps ps'.
Proof.
  induction ps as [|p ps IH]; simpl; intros k ps' H.
  - inversion H. constructor.
  - destruct (update_velocity _ _ _ _ _ p) as [p1|] eqn:Hp; simpl in H;
      [|discriminate].
    destruct (velocity_pass _ _ _ _ _ ps) as [ps1|] eqn:Hps; simpl in H;
      [|discriminate].
    inversion H; subst. constructor.
    + eapply update_velocity_spec, Hp.
    + eapply IH, Hps.
Qed.

(** ** One tick: positions *)

Lemma bounce_limited (self : Simulation) (v : Q) :
  (Qabs (bounce_scale self) <= 1)%Q ->
  (Qabs (bounce self v) <= Qabs v)%Q.
Proof.
  intros H. unfold bounce. rewrite Qabs_Qmult, Qabs_opp.
  pose proof (Qabs_nonneg v). nra.
Qed.

Lemma out_of_bounds_spec (self : Simulation) (limit : Z) (n v : Q) :
  0 <= limit ->
  let r := out_of_bounds self limit n v in
  (0 <= fst r <= inject_Z limit)%Q
  /\ ((fst r = n /\ snd r = v /\ (0 <= n)%Q /\ (n < inject_Z limit)%Q)
      \/ (fst r = 0%Q /\ snd r = bounce self v /\ (n < 0)%Q)
      \/ (fst r = inject_Z limit /\ snd r = bounce self v
          /\ (inject_Z limit <= n)%Q)).
Proof.
  intros Hl. rewrite Zle_Qle in Hl. change (inject_Z 0) with 0%Q in Hl.
  unfold out_of_bounds. destruct (Qltb n 0) eqn:E1; simpl.
  - apply Qltb_lt in E1. split; [lra|]. right. left. auto.
  - apply Qltb_ge in E1. destruct (Qle_bool (inject_Z limit) n) eqn:E2; simpl.
    + apply Qle_bool_iff in E2. split; [lra|]. right. right. auto.
    + assert (E3 : (n < inject_Z limit)%Q).
      { apply Qnot_le_lt. intros C. apply Qle_bool_iff in C. congruence. }
      split; [lra|]. left. auto.
Qed.

(** What [collide] can return: each coordinate is the candidate or the
    old one, each velocity is kept or bounced. *)
Lemma collide_shape (self : Simulation) (bm : list Z) (p : Particle.t)
    (nx ny vx vy : Q) (d : Z) (nx' ny' vx' vy' : Q) :
  collide self bm p nx ny vx vy d = OK (nx', ny', vx', vy') ->
  (nx' = nx \/ nx' = Particle.x p) /\ (ny' = ny \/ ny' = Particle.y p)
  /\ (vx' = vx \/ vx' = bounce self vx)
  /\ (vy' = vy \/ vy' = bounce self vy).
Proof.
  unfold collide.
  repeat match goal with
         | |- context [if ?b then _ else _] => destruct b; simpl
         | |- context [bind ?m _] => destruct m as [[]|]; simpl
         end; intros H; inversion H; subst; auto.
Qed.

Lemma move_particle_shape (self : Simulation) (bm bm' : list Z)
    (p p' : Particle.t) :
  move_particle self bm p = OK (bm', p') ->
  let candx := out_of_bounds self (pwidth self)
              (Particle.x p + Particle.vx p) (Particle.vx p) in
  let candy := out_of_bounds self (pheight self)
              (Particle.y p + Particle.vy p) (Particle.vy p) in
  (Particle.x p' = fst candx \/ Particle.x p' = Particle.x p)
  /\ (Particle.y p' = fst candy \/ Particle.y p' = Particle.y p)
  /\ (Particle.vx p' = snd candx \/ Particle.vx p' = bounce self (snd candx))
  /\ (Particle.vy p' = snd candy \/ Particle.vy p' = bounce self (snd candy))
  /\ Particle.c p' = Particle.c p.
Proof.
  intros H candx candy. unfold move_particle in H. fold candx candy in H.
  destruct candx as [nx vx], candy as [ny vy]. simpl in *.
  match type of H with
  | bind ?m _ = _ => destruct m as [hit|]; simpl in H; [|discriminate]
  end.
  match type of H with
  | bind ?m _ = _ =>
      destruct m as [[[[nx' ny'] vx'] vy']|] eqn:Hc; simpl in H;
      [|discriminate]
  end.
  destruct (clear_pixel _ _ _) as [bm1|]; simpl in H; [|discriminate].
  destruct (set_pixel _ _ _) as [bm2|]; simpl in H; [|discriminate].
  inversion H; subst; clear H. simpl.
  destruct hit.
  - apply collide_shape in Hc. tauto.
  - inversion Hc; subst. tauto.
Qed.

Section Bounds.

(** An engine whose limits are not negative and whose bounce does not
    amplify. *)
Variable self : Simulation.
Hypothesis pwidth_nonneg : 0 <= pwidth self.
Hypothesis pheight_nonneg : 0 <= pheight self.
Hypothesis bounce_damps : (Qabs (bounce_scale self) <= 1)%Q.

Lemma bounced_limited (v : Q) :
  (Qabs v <= inject_Z GRID_MULTIPLIER)%Q ->
  (Qabs (bounce self v) <= inject_Z GRID_MULTIPLIER)%Q.
Proof.
  intros H. eapply Qle_trans; [apply bounce_limited, bounce_damps | exact H].
Qed.

Lemma out_of_bounds_limited (limit : Z) (n v : Q) :
  0 <= limit -> (Qabs v <= inject_Z GRID_MULTIPLIER)%Q ->
  (Qabs (snd (out_of_bounds self limit n v)) <= inject_Z GRID_MULTIPLIER)%Q.
Proof.
  intros Hl Hv. destruct (out_of_bounds_spec self limit n v Hl) as [_ C].
  destruct C as [(_ & -> & _)|[(_ & -> & _)|(_ & -> & _)]];
    auto using bounced_limited.
Qed.

Lemma move_particle_bounds (bm bm' : list Z) (p p' : Particle.t) :
  in_bounds self p -> limited p ->
  move_particle self bm p = OK (bm', p') ->
  in_bounds self p' /\ limited p'.
Proof.
  intros [Bx By] [Lx Ly] H.
  apply move_particle_shape in H. simpl in H.
  destruct H as (Hx & Hy & Hvx & Hvy & _).
  pose proof (out_of_bounds_spec self (pwidth self)
                (Particle.x p + Particle.vx p) (Particle.vx p) pwidth_nonneg)
    as [Rx _].
  pose proof (out_of_bounds_spec self (pheight self)
                (Particle.y p + Particle.vy p) (Particle.vy p) pheight_nonneg)
    as [Ry _].
  pose proof (out_of_bounds_limited (pwidth self)
                (Particle.x p + Particle.vx p) _ pwidth_nonneg Lx) as Vx.
  pose proof (out_of_bounds_limited (pheight self)
                (Particle.y p + Particle.vy p) _ pheight_nonneg Ly) as Vy.
  split; split.
  - destruct Hx as [->| ->]; assumption.
  - destruct Hy as [->| ->]; assumption.
  - destruct Hvx as [->| ->]; auto using bounced_limited.
  - destruct Hvy as [->| ->]; auto using bounced_limited.
Qed.

Lemma position_pass_bounds (ps : list Particle.t) :
  forall bm bm' ps',
    Forall (fun p => in_bounds self p /\ limited p) ps ->
    position_pass self bm ps = OK (bm', ps') ->
    Forall (fun p => in_bounds self p /\ limited p) ps'.
Proof.
  induction ps as [|p ps IH]; simpl; intros bm bm' ps' Hall H.
  - inversion H. constructor.
  - destruct (move_particle self bm p) as [[bm1 p1]|] eqn:Hm; simpl in H;
      [|discriminate].
    destruct (position_pass self bm1 ps) as [[bm2 ps2]|] eqn:Hp; simpl in H;
      [|discriminate].
    inversion H; subst; clear H. inversion Hall as [|? ? [Hb Hl] Hall']; subst.
    constructor.
    + eapply move_particle_bounds; eauto.
    + eapply IH; eauto.
Qed.

End Bounds.

(** [tick] changes nothing but the clock, the bitmap and the particles. *)
Lemma tick_fields (rng : nat -> Z) (self self' : Simulation) :
  tick rng self = OK self' ->
  gravity self' = gravity self /\ width self' = width self
  /\ height self' = height self /\ pwidth self' = pwidth self
  /\ pheight self' = pheight self /\ grav_scale self' = grav_scale self
  /\ bounce_scale self' = bounce_scale self
  /\ simtime self' = simtime self + 1.
Proof.
  unfold tick. destruct (gravity self) as [[g0 g1] g2] eqn:Hg.
  destruct (velocity_pass _ _ _ _ _ _) as [ps|]; simpl; [|discriminate].
  destruct (position_pass _ _ _) as [[bm ps']|]; simpl; [|discriminate].
  intros H. inversion H; subst; simpl. repeat split; reflexivity.
Qed.

Lemma tick_bounds (rng : nat -> Z) (self self' : Simulation) :
  0 <= pwidth self -> 0 <= pheight self ->
  (Qabs (bounce_scale self) <= 1)%Q ->
  Forall (in_bounds self) (particles self) ->
  tick rng self = OK self' ->
  Forall (fun p => in_bounds self' p /\ limited p) (particles self').
Proof.
  intros Hw Hh Hb Hall H. pose proof (tick_fields _ _ _ H) as F.
  unfold tick in H. destruct (gravity self) as [[g0 g1] g2].
  destruct (velocity_pass _ _ _ _ _ _) as [ps|] eqn:Hv; simpl in H;
    [|discriminate].
  destruct (position_pass _ _ _) as [[bm ps']|] eqn:Hp; simpl in H;
    [|discriminate].
  inversion H; subst; clear H. simpl.
  apply velocity_pass_spec in Hv.
  assert (Hps : Forall (fun p => in_bounds self p /\ limited p) ps).
  { clear Hp. induction Hv as [|p q l l' (Ex & Ey & _ & Hl) _ IH].
    - constructor.
    - inversion Hall; subst. constructor; [|now apply IH].
      split; [|assumption]. unfold in_bounds. now rewrite Ex, Ey. }
  exact (position_pass_bounds self Hw Hh Hb ps (bitmap self) bm ps' Hps Hp).
Qed.

Lemma grid_ok_limits (self : Simulation) :
  grid_ok self -> 0 <= pwidth self /\ 0 <= pheight self.
Proof. unfold grid_ok, GRID_MULTIPLIER. lia. Qed.

Lemma host_step_well_formed (self self' : Simulation) :
  well_formed self -> host_step self self' -> well_formed self'.
Proof.
  intros (G & B & P) Hstep. destruct (grid_ok_limits self G) as [Hw Hh].
  destruct Hstep as [rng self self' Ht|g self].
  - pose proof (tick_bounds rng self self' Hw Hh B P Ht) as Hall.
    destruct (tick_fields _ _ _ Ht) as (_ & Ew & Eh & Epw & Eph & _ & Eb & _).
    unfold well_formed, grid_ok. rewrite Ew, Eh, Epw, Eph, Eb.
    split; [exact G|]. split; [exact B|].
    eapply Forall_impl; [exact Hall|]. now intros p [Hp _].
  - exact (conj G (conj B P)).
Qed.

Lemma host_steps_well_formed (self self' : Simulation) :
  well_formed self -> rtc host_step self self' -> well_formed self'.
Proof.
  intros Hwf Hrun. induction Hrun as [|s1 s2 s3 Hstep _ IH]; [assumption|].
  apply IH. eapply host_step_well_formed; eauto.
Qed.

Lemma host_steps_grid (self self' : Simulation) :
  rtc host_step self self' ->
  width self' = width self /\ height self' = height self
  /\ pwidth self' = pwidth self /\ pheight self' = pheight self.
Proof.
  intros Hrun. induction Hrun as [|s1 s2 s3 Hstep _ IH]; [tauto|].
  destruct Hstep as [rng s1 s2 Ht|g s1].
  - destruct (tick_fields _ _ _ Ht) as (_ & Ew & Eh & Epw & Eph & _).
    rewrite <- Ew, <- Eh, <- Epw, <- Eph. exact IH.
  - exact IH.
Qed.

(** C4. Start from an engine laid out as [__init__] does, with its
    particles inside the grid.  Whatever the host does next (ticks, with
    any random draws, and assignments of any gravity), after every tick
    that completes each particle has [0 <= x <= width*256 - 256],
    [0 <= y <= height*256 - 256], [|vx| <= 256] and [|vy| <= 256]. *)
Theorem bounds_after_every_tick (rng : nat -> Z)
    (self before after : Simulation) :
  well_formed self ->
  rtc host_step self before ->
  tick rng before = OK after ->
  Forall (fun p =>
            (0 <= Particle.x p <= inject_Z (width self * 256 - 256))%Q
            /\ (0 <= Particle.y p <= inject_Z (height self * 256 - 256))%Q
            /\ (Qabs (Particle.vx p) <= 256)%Q
            /\ (Qabs (Particle.vy p) <= 256)%Q) (particles after).
Proof.
  intros Hwf Hrun Ht.
  destruct (host_steps_grid _ _ Hrun) as (Ew & Eh & Epw & Eph).
  destruct (host_steps_well_formed _ _ Hwf Hrun) as (G & B & P).
  destruct (grid_ok_limits _ G) as [Hw Hh].
  pose proof (tick_bounds rng before after Hw Hh B P Ht) as Hall.
  destruct (tick_fields _ _ _ Ht) as (_ & _ & _ & Epw' & Eph' & _).
  destruct Hwf as ((_ & _ & Dw & Dh) & _).
  eapply Forall_impl; [exact Hall|]. intros p [[Bx By] [Lx Ly]].
  unfold GRID_MULTIPLIER in *.
  rewrite Epw', Epw, Dw in Bx. rewrite Eph', Eph, Dh in By.
  change (inject_Z 256) with 256%Q in Lx, Ly. tauto.
Qed.

Lemma scenario_engine_well_formed : well_formed scenario_engine.
Proof.
  split; [|split].
  - unfold grid_ok, GRID_MULTIPLIER. simpl. lia.
  - simpl. unfold Qle. simpl. lia.
  - repeat constructor; unfold Qle; simpl; lia.
Qed.

Lemma bounds_after_every_tick_witness :
  well_formed scenario_engine
  /\ Forall (fun p =>
               (0 <= Particle.x p <= inject_Z (32 * 256 - 256))%Q
               /\ (0 <= Particle.y p <= inject_Z (32 * 256 - 256))%Q
               /\ (Qabs (Particle.vx p) <= 256)%Q
               /\ (Qabs (Particle.vy p) <= 256)%Q)
       [Particle.mk (inject_Z 1280) (10240 # 8) (-256 # 2) (0 # 8) white].
Proof.
  split; [exact scenario_engine_well_formed|].
  apply (bounds_after_every_tick (fun _ => 0) scenario_engine scenario_engine
           (mkSimulation (0, 0, 0)%Q 32 32 7936 7936 1 (1 # 2) 1
              (<[5%nat := 96]> (replicate 32 0))
              [Particle.mk (inject_Z 1280) (10240 # 8) (-256 # 2) (0 # 8)
                 white])).
  - exact scenario_engine_well_formed.
  - apply rtc_refl.
  - vm_compute. reflexivity.
Defined.

(** ** Zero jitter *)

Lemma randint0_zero (r : Z) (raz : Q) :
  (raz == 0)%Q -> randint0 r raz = OK 0%Q.
Proof.
  intros H. unfold randint0.
  assert (Hs : (raz + 1 == 1)%Q) by lra.
  assert (Hi : py_int (raz + 1) = 1).
  { rewrite py_int_floor by lra. now rewrite (Qfloor_comp _ _ Hs). }
  rewrite Hi. simpl (0 <? 1).
  rewrite (Qeq_eq_bool (inject_Z 1) (raz + 1)) by (now rewrite Hs).
  now rewrite Z.mod_1_r.
Qed.

Lemma velocity_pass_zero_raz (rng : nat -> Z) (ax ay raz : Q)
    (ps : list Particle.t) :
  (raz == 0)%Q ->
  forall k, velocity_pass rng k ax ay raz ps
            = velocity_pass (fun _ => 0) k ax ay raz ps.
Proof.
  intros H. induction ps as [|p ps IH]; simpl; intros k; [reflexivity|].
  unfold update_velocity. rewrite !randint0_zero by assumption. simpl.
  now rewrite IH.
Qed.

Lemma tick_zero_raz (rng : nat -> Z) (self : Simulation) :
  (raz_of self == 0)%Q -> tick rng self = tick (fun _ => 0) self.
Proof.
  unfold raz_of, tick. destruct (gravity self) as [[g0 g1] g2]. intros H.
  now rewrite (velocity_pass_zero_raz rng _ _ _ _ H).
Qed.

Lemma ticks_zero_raz (n : nat) :
  forall (rngs : nat -> nat -> Z) (self : Simulation),
    (raz_of self == 0)%Q -> ticks n rngs self = ticks n (fun _ _ => 0) self.
Proof.
  induction n as [|n IH]; simpl; intros rngs self H; [reflexivity|].
  rewrite (tick_zero_raz (rngs O) self H).
  destruct (tick (fun _ => 0) self) as [self'|e] eqn:Ht; simpl; [|reflexivity].
  apply IH. destruct (tick_fields _ _ _ Ht) as (Eg & _ & _ & _ & _ & Es & _).
  unfold raz_of in *. now rewrite Eg, Es.
Qed.

(** ** Collisions *)

Lemma truthy_get_pixel (bm : list Z) (a b : Q) :
  0 <= cell b < Z.of_nat (length bm) ->
  truthy (get_pixel bm (to_grid a) (to_grid b))
  = OK (pixel_is_set bm (cell a) (cell b)).
Proof.
  intros Hr. rewrite get_pixel_int. fold (cell a) (cell b).
  unfold pixel_is_set.
  destruct (get_pixel_in_range bm (cell a) (cell b) Hr) as (w & _ & ->).
  reflexivity.
Qed.

(** A pixel method that returned for a row returns for that row again. *)
Lemma pixel_row_ok (bm : list Z) (x y : Q) (v : Z) :
  get_pixel bm x y = OK v ->
  - Z.of_nat (length bm) <= py_int y < Z.of_nat (length bm).
Proof.
  intros H.
  destruct (pixel_methods_raise bm x y) as [[_ Hg] _].
  destruct (Z_lt_ge_dec (py_int y) (- Z.of_nat (length bm))) as [Hlo|Hlo].
  - destruct Hg as [e He]; [now left | congruence].
  - destruct (Z_lt_ge_dec (py_int y) (Z.of_nat (length bm))) as [Hhi|Hhi];
      [lia|].
    destruct Hg as [e He]; [right; lia | congruence].
Qed.

Lemma clear_pixel_row_ok (bm : list Z) (x y : Q) :
  - Z.of_nat (length bm) <= py_int y < Z.of_nat (length bm) ->
  exists bm', clear_pixel bm x y = OK bm'.
Proof.
  intros H. destruct (clear_pixel bm x y) as [bm'|e] eqn:Hc; [eauto|].
  destruct (pixel_methods_raise bm x y) as (_ & _ & [Hg _]).
  destruct Hg; [eauto | lia | lia].
Qed.

Lemma set_pixel_row_ok (bm : list Z) (x y : Q) :
  - Z.of_nat (length bm) <= py_int y < Z.of_nat (length bm) ->
  exists bm', set_pixel bm x y = OK bm'.
Proof.
  intros H. destruct (set_pixel bm x y) as [bm'|e] eqn:Hc; [eauto|].
  destruct (pixel_methods_raise bm x y) as (_ & [Hg _] & _).
  destruct Hg; [eauto | lia | lia].
Qed.

(** Clearing the old cell and setting the new one, for rows that index
    the bitmap. *)
Lemma move_pixels_ok (bm : list Z) (x y nx ny : Q) :
  - Z.of_nat (length bm) <= cell y < Z.of_nat (length bm) ->
  - Z.of_nat (length bm) <= cell ny < Z.of_nat (length bm) ->
  exists bm1 bm2,
    clear_pixel bm (to_grid x) (to_grid y) = OK bm1
    /\ set_pixel bm1 (to_grid nx) (to_grid ny) = OK bm2.
Proof.
  intros Hy Hny.
  destruct (clear_pixel_row_ok bm (to_grid x) (to_grid y) Hy) as [bm1 H1].
  destruct (set_pixel_row_ok bm1 (to_grid nx) (to_grid ny)) as [bm2 H2].
  { rewrite (clear_pixel_length _ _ _ _ H1). exact Hny. }
  eauto.
Qed.

Lemma scenario_engine_built :
  exists s0 s1 bm,
    init_fields 32 32 = OK s0
    /\ add_particle s0 scenario_particle = OK s1
    /\ set_pixel (bitmap s1) 6 5 = OK bm
    /\ scenario_engine = with_bitmap s1 bm.
Proof. do 3 eexists. by_evaluation. Qed.

Lemma last_column_engine_built :
  exists s0 s1 bm,
    init_fields 32 32 = OK s0
    /\ add_particle s0 last_column_particle = OK s1
    /\ set_pixel (bitmap s1) 31 5 = OK bm
    /\ last_column_engine = with_bitmap s1 bm.
Proof. do 3 eexists. by_evaluation. Qed.

(** C6, as the code has it.  In the position loop of [tick], when the
    candidate position (after the bounds check) lies one cell to the left
    or right of the particle's cell, in the same row, and that cell is
    occupied, the particle keeps its x and its vx is bounced once more:
    it becomes [-vx * bounce_scale] when the bounds check left the
    candidate alone, and [-(-vx * bounce_scale) * bounce_scale] when the
    bounds check had clamped it.  In the scenario of the specification
    [vx = 300] is limited to 256, x stays 1280 and vx becomes
    [-256 * bounce_scale = -128], whatever the random draws. *)
Theorem blocked_horizontal_move :
  (forall (self : Simulation) (bm : list Z) (p : Particle.t),
      let x := Particle.x p in
      let y := Particle.y p in
      let vx := Particle.vx p in
      let vy := Particle.vy p in
      let candx := out_of_bounds self (pwidth self) (x + vx) vx in
      let candy := out_of_bounds self (pheight self) (y + vy) vy in
      Z.abs (cell (fst candx) - cell x) = 1 ->
      cell (fst candy) = cell y ->
      truthy (get_pixel bm (to_grid (fst candx)) (to_grid (fst candy))) = OK true ->
      exists bm' p',
        move_particle self bm p = OK (bm', p')
        /\ Particle.x p' = x
        /\ Particle.vx p' = bounce self (snd candx)
        /\ ((0 <= x + vx)%Q -> (x + vx < inject_Z (pwidth self))%Q ->
            Particle.vx p' = bounce self vx)
        /\ ((inject_Z (pwidth self) <= x + vx)%Q ->
            Particle.vx p' = bounce self (bounce self vx)))
  /\ (forall rng : nat -> Z,
        limit_velocity (Particle.vx scenario_particle) = 256%Q
        /\ pixel_is_set (bitmap scenario_engine) 6 5 = true
        /\ exists after p',
            tick rng scenario_engine = OK after
            /\ particles after = [p']
            /\ (Particle.x p' == Particle.x scenario_particle)%Q
            /\ (Particle.vx p' == - (256) * bounce_scale scenario_engine)%Q
            /\ (Particle.vx p' == - (128))%Q).
Proof.
  split.
  - intros self bm p x y vx vy candx candy Hdx Hdy Hocc.
    assert (Hrow : - Z.of_nat (length bm) <= cell (fst candy)
                   < Z.of_nat (length bm)).
    { unfold truthy in Hocc.
      destruct (get_pixel bm _ _) as [v|] eqn:Hg; [|discriminate].
      apply pixel_row_ok in Hg. exact Hg. }
    destruct (move_pixels_ok bm x y x (fst candy)) as (bm1 & bm2 & Hc & Hs);
      [rewrite <- Hdy; exact Hrow | exact Hrow |].
    exists bm2, (Particle.mk x (fst candy) (bounce self (snd candx)) (snd candy)
                   (Particle.c p)).
    assert (Hmove : move_particle self bm p
                    = OK (bm2, Particle.mk x (fst candy) (bounce self (snd candx))
                                 (snd candy) (Particle.c p))).
    { unfold move_particle. fold x y vx vy candx candy.
      destruct candx as [nx vx1], candy as [ny vy1]. simpl in *.
      unfold cell_index. fold (cell y) (cell x) (cell ny) (cell nx).
      rewrite Hdy.
      destruct (Z.eqb_spec (cell y * width self + cell x)
                  (cell y * width self + cell nx)) as [E|_]; [lia|].
      simpl. rewrite Hocc. simpl. unfold collide.
      replace (Z.abs (cell y * width self + cell nx
                      - (cell y * width self + cell x))) with 1 by lia.
      simpl. fold x y. rewrite Hc. simpl. rewrite Hs. reflexivity. }
    split; [exact Hmove|]. split; [reflexivity|]. split; [reflexivity|].
    simpl. unfold candx, out_of_bounds. split.
    + intros H0 H1. apply Qltb_ge in H0. rewrite H0.
      destruct (Qle_bool (inject_Z (pwidth self)) (x + vx)) eqn:E;
        [|reflexivity].
      apply Qle_bool_iff in E. lra.
    + intros H1. destruct (Qltb (x + vx) 0); [reflexivity|].
      apply Qle_bool_iff in H1. now rewrite H1.
  - intros rng. split; [reflexivity|]. split; [reflexivity|].
    rewrite tick_zero_raz by reflexivity.
    do 2 eexists. split; [vm_compute; reflexivity|].
    repeat split; reflexivity.
Qed.

Lemma blocked_horizontal_move_witness :
  Z.abs (cell (inject_Z 1536) - cell (inject_Z 1280)) = 1
  /\ cell (inject_Z 1280 + 0) = cell (inject_Z 1280)
  /\ exists bm' p',
      move_particle scenario_engine (bitmap scenario_engine)
        (Particle.mk (inject_Z 1280) (inject_Z 1280) 256 0 white)
      = OK (bm', p')
      /\ Particle.x p' = inject_Z 1280.
Proof.
  split; [reflexivity|]. split; [reflexivity|].
  destruct (proj1 blocked_horizontal_move scenario_engine
              (bitmap scenario_engine)
              (Particle.mk (inject_Z 1280) (inject_Z 1280) 256 0 white))
    as (bm' & p' & Hm & Hx & _).
  - reflexivity.
  - reflexivity.
  - reflexivity.
  - exists bm', p'. split; [exact Hm | exact Hx].
Defined.

(** C6, counterexample: the particle at cell (30, 5) moves with
    [vx = 256] towards the occupied cell (31, 5) of the last column.  Only
    its x cell changes, by one; it keeps its x, but the bounds check has
    already bounced its velocity, and vx ends as [+64], not as
    [-256 * bounce_scale = -128]. *)
Lemma last_column_block_bounces_twice :
  exists after p',
    tick (fun _ => 0) last_column_engine = OK after
    /\ particles after = [p']
    /\ limit_velocity (Particle.vx last_column_particle) = 256%Q
    /\ cell (Particle.x last_column_particle + 256)
       = cell (Particle.x last_column_particle) + 1
    /\ cell (Particle.y last_column_particle + 0)
       = cell (Particle.y last_column_particle)
    /\ pixel_is_set (bitmap last_column_engine) 31 5 = true
    /\ (Particle.x p' == Particle.x last_column_particle)%Q
    /\ (Particle.vx p' == 64)%Q
    /\ ~ (Particle.vx p' == - (256) * bounce_scale last_column_engine)%Q.
Proof.
  do 2 eexists. split; [vm_compute; reflexivity|].
  split; [reflexivity|]. repeat split; try reflexivity.
  intros H. vm_compute in H. discriminate.
Qed.

(** The candidate coordinate after the bounds check stays inside the
    grid and within one cell of the old coordinate. *)
Lemma out_of_bounds_step (self : Simulation) (limit : Z) (a v : Q) :
  0 <= limit ->
  (0 <= a <= inject_Z limit)%Q -> (Qabs v <= inject_Z GRID_MULTIPLIER)%Q ->
  let n := fst (out_of_bounds self limit (a + v) v) in
  (0 <= n <= inject_Z limit)%Q /\ (a - 256 <= n)%Q /\ (n <= a + 256)%Q.
Proof.
  intros Hl Ha Hv. change (inject_Z GRID_MULTIPLIER) with 256%Q in Hv.
  apply Qabs_Qle_condition in Hv.
  destruct (out_of_bounds_spec self limit (a + v) v Hl) as [R C].
  simpl. split; [exact R|].
  destruct C as [(-> & _)|[(-> & _ & C)|(-> & _ & C)]]; lra.
Qed.

Lemma candidate_cell (self : Simulation) (limit n : Z) (a v : Q) :
  0 < n -> limit = n * GRID_MULTIPLIER - GRID_MULTIPLIER ->
  (0 <= a <= inject_Z limit)%Q -> (Qabs v <= inject_Z GRID_MULTIPLIER)%Q ->
  let c' := cell (fst (out_of_bounds self limit (a + v) v)) in
  0 <= cell a < n /\ 0 <= c' < n /\ cell a - 1 <= c' <= cell a + 1.
Proof.
  intros Hn Hl Ha Hv.
  assert (H0 : 0 <= limit) by (unfold GRID_MULTIPLIER in Hl; lia).
  destruct (out_of_bounds_step self limit a v H0 Ha Hv) as (R & Lo & Hi).
  simpl. subst limit. split; [|split].
  - apply cell_in_grid; tauto.
  - apply cell_in_grid; tauto.
  - apply cell_step; tauto.
Qed.

(** C5. In the position loop of [tick], for a particle inside the grid
    with limited velocity: when the candidate position (after the bounds
    check) changes both cell coordinates and its cell is occupied, the
    particle ends as the specification resolves a diagonal collision
    ([spec_diagonal]). *)
Theorem diagonal_collision_resolution (self : Simulation) (bm : list Z)
    (p : Particle.t) :
  let x := Particle.x p in
  let y := Particle.y p in
  let candx := out_of_bounds self (pwidth self) (x + Particle.vx p)
              (Particle.vx p) in
  let candy := out_of_bounds self (pheight self) (y + Particle.vy p)
              (Particle.vy p) in
  grid_ok self -> 2 < width self ->
  height self <= Z.of_nat (length bm) ->
  in_bounds self p -> limited p ->
  cell (fst candx) <> cell x -> cell (fst candy) <> cell y ->
  pixel_is_set bm (cell (fst candx)) (cell (fst candy)) = true ->
  exists bm',
    move_particle self bm p
    = OK (bm', particle_at
                 (spec_diagonal self bm p (fst candx) (fst candy) (snd candx) (snd candy))
                 (Particle.c p)).
Proof.
  intros x y candx candy (Hw & Hh & Dw & Dh) Hw2 Hlen [Bx By] [Lx Ly] Hdx Hdy Hocc.
  destruct (candidate_cell self (pwidth self) (width self) x (Particle.vx p)
              Hw Dw Bx Lx) as (Cx & Cnx & Sx).
  destruct (candidate_cell self (pheight self) (height self) y (Particle.vy p)
              Hh Dh By Ly) as (Cy & Cny & Sy).
  fold candx in Cnx, Sx. fold candy in Cny, Sy.
  assert (Ry : 0 <= cell y < Z.of_nat (length bm)) by lia.
  assert (Rny : 0 <= cell (fst candy) < Z.of_nat (length bm)) by lia.
  unfold move_particle. fold x y candx candy.
  destruct candx as [nx vx], candy as [ny vy]. simpl in *.
  unfold cell_index. fold (cell y) (cell x) (cell ny) (cell nx).
  set (oidx := cell y * width self + cell x).
  set (nidx := cell ny * width self + cell nx).
  assert (Hd : nidx - oidx = width self + 1 \/ nidx - oidx = width self - 1
               \/ nidx - oidx = - width self + 1
               \/ nidx - oidx = - width self - 1).
  { unfold oidx, nidx.
    assert (Ex : cell nx = cell x + 1 \/ cell nx = cell x - 1) by lia.
    assert (Ey : cell ny = cell y + 1 \/ cell ny = cell y - 1) by lia.
    destruct Ex as [-> | ->], Ey as [-> | ->]; lia. }
  destruct (Z.eqb_spec oidx nidx) as [E|_]; [lia|]. simpl.
  rewrite (truthy_get_pixel bm nx ny Rny), Hocc. simpl.
  unfold collide.
  destruct (Z.eqb_spec (Z.abs (nidx - oidx)) 1) as [E|_]; [lia|].
  destruct (Z.eqb_spec (Z.abs (nidx - oidx)) (width self)) as [E|_]; [lia|].
  fold x y.
  rewrite (truthy_get_pixel bm nx y Ry), (truthy_get_pixel bm x ny Rny).
  unfold spec_diagonal, dominant_axis, slide_free, slide, other_axis, bounce.
  fold x y. simpl.
  destruct (Qle_bool (Qabs vy) (Qabs vx));
    destruct (pixel_is_set bm (cell nx) (cell y));
    destruct (pixel_is_set bm (cell x) (cell ny)); simpl;
    match goal with
    | |- exists _, bind (clear_pixel _ _ _) (fun _ =>
           bind (set_pixel _ (to_grid ?a) (to_grid ?b)) _) = _ =>
        destruct (move_pixels_ok bm x y a b) as (bm1 & bm2 & -> & Hs);
        [lia | lia | simpl; rewrite Hs; simpl; eauto]
    end.
Qed.

Lemma diagonal_collision_resolution_witness :
  exists bm',
    move_particle diagonal_engine (bitmap diagonal_engine) diagonal_particle
    = OK (bm', Particle.mk (inject_Z 1280) (inject_Z 1280 + 256)
                 (- (256) * (1 # 2)) 256 white).
Proof.
  apply (diagonal_collision_resolution diagonal_engine
           (bitmap diagonal_engine) diagonal_particle).
  - unfold grid_ok, GRID_MULTIPLIER. simpl. lia.
  - simpl. lia.
  - apply Z.leb_le. reflexivity.
  - split; split; vm_compute; discriminate.
  - split; vm_compute; discriminate.
  - vm_compute. discriminate.
  - vm_compute. discriminate.
  - reflexivity.
Defined.

(** ** The seeded engine *)

Lemma same_positionsb_correct (ps qs : list Particle.t) :
  same_positionsb ps qs = true -> Forall2 same_position ps qs.
Proof.
  revert qs. induction ps as [|p ps IH]; intros [|q qs]; simpl;
    try discriminate; [constructor|].
  intros H. apply andb_true_iff in H as [Hp Hr].
  apply andb_true_iff in Hp as [Hx Hy].
  constructor; [|now apply IH].
  split; now apply Qeq_bool_eq.
Qed.

Lemma Simulation_init_32_seeds (c : color) :
  exists s0,
    Simulation_init (Some c) 32 32 = OK s0
    /\ particles s0 = seeded_particles c
    /\ bitmap s0 = [4294967295; 4294967295] ++ replicate 30 0
    /\ gravity s0 = (0, 0, 0)%Q /\ width s0 = 32 /\ height s0 = 32
    /\ pwidth s0 = 7936 /\ pheight s0 = 7936
    /\ grav_scale s0 = 1%Q /\ bounce_scale s0 = (1 # 2)%Q.
Proof. eexists. split; [vm_compute; reflexivity|]. repeat split. Qed.

(** C9.  [create(32, 32)] raises [TypeError] and returns no engine to
    tick.  With the colour argument supplied the rest of the scenario
    holds: the engine is seeded at [(cellX*256, cellY*256)] for [cellX]
    in 0..31 and [cellY] in {0, 1}, at rest and with zero gravity; ten
    ticks complete, do not depend on the random draws, and leave every
    particle at its initial position. *)
Theorem seeded_engine_fixed_point (c : color) (rngs : nat -> nat -> Z) :
  create 32 32 = Raise TypeError_missing_argument_c
  /\ exists s0 s10,
      Simulation_init (Some c) 32 32 = OK s0
      /\ gravity s0 = (0, 0, 0)%Q
      /\ particles s0 = seeded_particles c
      /\ ticks 10 rngs s0 = OK s10
      /\ (forall rngs', ticks 10 rngs' s0 = OK s10)
      /\ Forall2 same_position (particles s0) (particles s10).
Proof.
  split; [reflexivity|].
  destruct (Simulation_init_32_seeds c) as (s0 & Hs0 & Hp & _).
  assert (Hz : (raz_of s0 == 0)%Q).
  { vm_compute in Hs0. inversion Hs0. reflexivity. }
  assert (Ht : exists s10, ticks 10 (fun _ _ => 0) s0 = OK s10
                 /\ same_positionsb (particles s0) (particles s10) = true).
  { vm_compute in Hs0. inversion Hs0. eexists.
    split; [vm_compute; reflexivity | vm_compute; reflexivity]. }
  destruct Ht as (s10 & Ht & Hsame).
  exists s0, s10. split; [exact Hs0|].
  split; [vm_compute in Hs0; inversion Hs0; reflexivity|].
  split; [exact Hp|].
  split; [now rewrite ticks_zero_raz|].
  split; [intros rngs'; now rewrite ticks_zero_raz|].
  now apply same_positionsb_correct.
Qed.

(** ** The correspondence between bitmap and particles (width 32) *)

Lemma count_in_cell_same_cells (ps ps' : list Particle.t) (cx cy : Z) :
  Forall2 (fun p p' =>
             Particle.x p' = Particle.x p /\ Particle.y p' = Particle.y p
             /\ Particle.c p' = Particle.c p /\ limited p') ps ps' ->
  count_in_cell ps' cx cy = count_in_cell ps cx cy.
Proof.
  induction 1 as [|p p' ps ps' (Ex & Ey & _) _ IH]; [reflexivity|].
  rewrite !count_in_cell_cons, IH. unfold in_cell. now rewrite Ex, Ey.
Qed.

Lemma move_particle_pixels (self : Simulation) (bm bm' : list Z)
    (p p' : Particle.t) :
  move_particle self bm p = OK (bm', p') ->
  exists bm1,
    clear_pixel bm (to_grid (Particle.x p)) (to_grid (Particle.y p)) = OK bm1
    /\ set_pixel bm1 (to_grid (Particle.x p')) (to_grid (Particle.y p'))
       = OK bm'.
Proof.
  unfold move_particle.
  destruct (out_of_bounds self (pwidth self) _ _) as [nx vx].
  destruct (out_of_bounds self (pheight self) _ _) as [ny vy].
  intros H.
  match type of H with
  | bind ?m _ = _ => destruct m as [hit|]; simpl in H; [|discriminate]
  end.
  match type of H with
  | bind ?m _ = _ =>
      destruct m as [[[[nx' ny'] vx'] vy']|]; simpl in H; [|discriminate]
  end.
  destruct (clear_pixel _ _ _) as [bm1|]; simpl in H; [|discriminate].
  destruct (set_pixel _ _ _) as [bm2|] eqn:Hs; simpl in H; [|discriminate].
  inversion H; subst; clear H. simpl. eauto.
Qed.

(** Clearing the old cell and setting the new one, as [get] sees it. *)
Lemma clear_then_set (bm bm1 bm' : list Z) (a b a' b' : Q) (n : Z) :
  n <= Z.of_nat (length bm) ->
  0 <= cell a < 32 -> 0 <= cell b < n ->
  0 <= cell a' < 32 -> 0 <= cell b' < n ->
  clear_pixel bm (to_grid a) (to_grid b) = OK bm1 ->
  set_pixel bm1 (to_grid a') (to_grid b') = OK bm' ->
  length bm' = length bm
  /\ forall cx cy, 0 <= cx < 32 -> 0 <= cy < n ->
       pixel_is_set bm' cx cy
       = ((cx =? cell a') && (cy =? cell b'))
         || (negb ((cx =? cell a) && (cy =? cell b)) && pixel_is_set bm cx cy).
Proof.
  intros Hn Ha Hb Ha' Hb' Hc Hs.
  pose proof (clear_pixel_length _ _ _ _ Hc) as L1.
  pose proof (set_pixel_length _ _ _ _ Hs) as L2.
  split; [congruence|]. intros cx cy Hx Hy.
  rewrite clear_pixel_int in Hc. rewrite set_pixel_int in Hs.
  fold (cell a) (cell b) in Hc. fold (cell a') (cell b') in Hs.
  rewrite (pixel_set_get_width_32 bm1 bm' (cell a') (cell b') cx cy)
    by (assumption || lia).
  rewrite (pixel_clear_get_width_32 bm bm1 (cell a) (cell b) cx cy)
    by (assumption || lia).
  reflexivity.
Qed.

Lemma in_cell_true (cx cy : Z) (p : Particle.t) :
  in_cell cx cy p = true
  <-> cell (Particle.x p) = cx /\ cell (Particle.y p) = cy.
Proof. unfold in_cell. rewrite andb_true_iff, !Z.eqb_eq. reflexivity. Qed.

Lemma in_cell_eqb (cx cy : Z) (p : Particle.t) :
  (cx =? cell (Particle.x p)) && (cy =? cell (Particle.y p)) = in_cell cx cy p.
Proof. unfold in_cell. now rewrite (Z.eqb_sym cx), (Z.eqb_sym cy). Qed.

(** One iteration of the position loop keeps the count of every cell
    equal to its bit. *)
Lemma counted_step (n : Z) (bm bm' : list Z) (pre rest : list Particle.t)
    (p p' : Particle.t) :
  0 <= cell (Particle.x p') < 32 -> 0 <= cell (Particle.y p') < n ->
  ((cell (Particle.x p') = cell (Particle.x p)
    /\ cell (Particle.y p') = cell (Particle.y p))
   \/ pixel_is_set bm (cell (Particle.x p')) (cell (Particle.y p')) = false) ->
  (forall cx cy, 0 <= cx < 32 -> 0 <= cy < n ->
     pixel_is_set bm' cx cy
     = ((cx =? cell (Particle.x p')) && (cy =? cell (Particle.y p')))
       || (negb ((cx =? cell (Particle.x p)) && (cy =? cell (Particle.y p)))
           && pixel_is_set bm cx cy)) ->
  counted n bm (pre ++ p :: rest) ->
  counted n bm' (pre ++ p' :: rest).
Proof.
  intros R1x R1y D Hpix K. unfold counted in *. intros cx cy Hx Hy.
  pose proof (K cx cy Hx Hy) as Kc.
  rewrite count_in_cell_app, count_in_cell_cons in Kc |- *.
  rewrite (Hpix cx cy Hx Hy), !in_cell_eqb.
  destruct (in_cell cx cy p') eqn:B1; simpl.
  - apply in_cell_true in B1 as [Ex Ey]. destruct D as [[Dx Dy]|F].
    + assert (B0 : in_cell cx cy p = true) by (apply in_cell_true; lia).
      rewrite B0 in Kc. destruct (pixel_is_set bm cx cy); lia.
    + rewrite Ex, Ey in F. rewrite F in Kc.
      destruct (in_cell cx cy p); lia.
  - destruct (in_cell cx cy p); simpl;
      destruct (pixel_is_set bm cx cy); simpl; lia.
Qed.

Section Width32.

(** An engine on the grid the pixel methods are written for. *)
Variable self : Simulation.
Hypothesis grid : grid_ok self.
Hypothesis wide : width self = 32.

(** Where a particle ends: in its old cell, or in a cell that was free. *)
Lemma move_particle_target (bm bm' : list Z) (p p' : Particle.t) :
  height self <= Z.of_nat (length bm) ->
  in_bounds self p -> limited p ->
  move_particle self bm p = OK (bm', p') ->
  0 <= cell (Particle.x p) < 32 /\ 0 <= cell (Particle.y p) < height self
  /\ 0 <= cell (Particle.x p') < 32 /\ 0 <= cell (Particle.y p') < height self
  /\ ((cell (Particle.x p') = cell (Particle.x p)
       /\ cell (Particle.y p') = cell (Particle.y p))
      \/ pixel_is_set bm (cell (Particle.x p')) (cell (Particle.y p')) = false).
Proof.
  intros Hlen [Bx By] [Lx Ly] H.
  destruct grid as (Hw & Hh & Dw & Dh). pose proof wide as W.
  destruct (candidate_cell self (pwidth self) (width self) (Particle.x p)
              (Particle.vx p) Hw Dw Bx Lx) as (Cx & Cnx & Sx).
  destruct (candidate_cell self (pheight self) (height self) (Particle.y p)
              (Particle.vy p) Hh Dh By Ly) as (Cy & Cny & Sy).
  rewrite W in Cx, Cnx.
  unfold move_particle in H.
  destruct (out_of_bounds self (pwidth self) _ _) as [nx vx].
  destruct (out_of_bounds self (pheight self) _ _) as [ny vy].
  simpl in Cnx, Sx, Cny, Sy.
  set (x := Particle.x p) in *. set (y := Particle.y p) in *.
  unfold cell_index in H. rewrite W in H.
  fold (cell y) (cell x) (cell ny) (cell nx) in H.
  assert (Ry : 0 <= cell y < Z.of_nat (length bm)) by lia.
  assert (Rny : 0 <= cell ny < Z.of_nat (length bm)) by lia.
  rewrite (truthy_get_pixel bm nx ny Rny) in H.
  assert (Finish : forall nx' ny' vx' vy',
             0 <= cell nx' < 32 -> 0 <= cell ny' < height self ->
             ((cell nx' = cell x /\ cell ny' = cell y)
              \/ pixel_is_set bm (cell nx') (cell ny') = false) ->
             (bind (clear_pixel bm (to_grid x) (to_grid y)) (fun bm1 =>
                bind (set_pixel bm1 (to_grid nx') (to_grid ny')) (fun bm2 =>
                  OK (bm2, Particle.mk nx' ny' vx' vy' (Particle.c p))))
              = OK (bm', p')) ->
             0 <= cell x < 32 /\ 0 <= cell y < height self
             /\ 0 <= cell (Particle.x p') < 32
             /\ 0 <= cell (Particle.y p') < height self
             /\ ((cell (Particle.x p') = cell x
                  /\ cell (Particle.y p') = cell y)
                 \/ pixel_is_set bm (cell (Particle.x p'))
                      (cell (Particle.y p')) = false)).
  { intros nx' ny' vx' vy' R1 R2 D E.
    destruct (clear_pixel _ _ _) as [bm1|]; simpl in E; [|discriminate].
    destruct (set_pixel _ _ _) as [bm2|]; simpl in E; [|discriminate].
    inversion E; subst; clear E. simpl. tauto. }
  destruct (Z.eqb_spec (cell y * 32 + cell x) (cell ny * 32 + cell nx))
    as [E|E]; simpl in H.
  - apply (Finish nx ny vx vy); [lia | lia | left; lia | exact H].
  - destruct (pixel_is_set bm (cell nx) (cell ny)) eqn:Hocc; simpl in H.
    + unfold collide in H. rewrite W in H. fold x y in H.
      destruct (Z.eqb_spec
                  (Z.abs (cell ny * 32 + cell nx - (cell y * 32 + cell x))) 1)
        as [D1|D1]; simpl in H.
      { apply (Finish x ny (bounce self vx) vy);
          [lia | lia | left; lia | exact H]. }
      destruct (Z.eqb_spec
                  (Z.abs (cell ny * 32 + cell nx - (cell y * 32 + cell x))) 32)
        as [D2|D2]; simpl in H.
      { apply (Finish nx y vx (bounce self vy));
          [lia | lia | left; lia | exact H]. }
      rewrite (truthy_get_pixel bm nx y Ry),
        (truthy_get_pixel bm x ny Rny) in H.
      destruct (Qle_bool (Qabs vy) (Qabs vx));
        destruct (pixel_is_set bm (cell nx) (cell y)) eqn:Fx;
        destruct (pixel_is_set bm (cell x) (cell ny)) eqn:Fy; simpl in H;
        match type of H with
        | bind (clear_pixel _ _ _) (fun _ =>
            bind (set_pixel _ (to_grid ?a) (to_grid ?b)) (fun _ =>
              OK (_, Particle.mk _ _ ?v ?w _))) = _ =>
            apply (Finish a b v w);
            [lia | lia | first [right; assumption | left; lia] | exact H]
        end.
    + apply (Finish nx ny vx vy); [lia | lia | right; exact Hocc | exact H].
Qed.

Lemma position_pass_counted (todo : list Particle.t) :
  forall (pre : list Particle.t) (bm bm' : list Z) (out : list Particle.t),
    Z.of_nat (length bm) = height self ->
    Forall (fun p => in_bounds self p /\ limited p) todo ->
    counted (height self) bm (pre ++ todo) ->
    position_pass self bm todo = OK (bm', out) ->
    Z.of_nat (length bm') = height self
    /\ counted (height self) bm' (pre ++ out).
Proof.
  induction todo as [|p todo IH]; simpl;
    intros pre bm bm' out Hlen Hall K H.
  - inversion H; subst. split; assumption.
  - destruct (move_particle self bm p) as [[bm1 p1]|] eqn:Hm; simpl in H;
      [|discriminate].
    destruct (position_pass self bm1 todo) as [[bm2 out2]|] eqn:Hp;
      simpl in H; [|discriminate].
    inversion H; subst; clear H. inversion Hall as [|? ? [Hb Hl] Hall']; subst.
    destruct (move_particle_target bm bm1 p p1 ltac:(lia) Hb Hl Hm)
      as (R0x & R0y & R1x & R1y & D).
    destruct (move_particle_pixels self bm bm1 p p1 Hm) as (bmc & Hc & Hs).
    destruct (clear_then_set bm bmc bm1 _ _ _ _ (height self)
                ltac:(lia) R0x R0y R1x R1y Hc Hs) as [L Hpix].
    pose proof (counted_step (height self) bm bm1 pre todo p p1
                  R1x R1y D Hpix K) as K1.
    destruct (IH (pre ++ [p1]) bm1 bm' out2) as [L' K'].
    + lia.
    + exact Hall'.
    + now rewrite <- app_assoc.
    + exact Hp.
    + split; [exact L'|]. now rewrite <- app_assoc in K'.
Qed.

End Width32.

(** The invariant of a running 32-wide engine. *)
Lemma tick_counted (rng : nat -> Z) (self self' : Simulation) :
  well_formed self -> width self = 32 ->
  Z.of_nat (length (bitmap self)) = height self ->
  counted (height self) (bitmap self) (particles self) ->
  tick rng self = OK self' ->
  Z.of_nat (length (bitmap self')) = height self'
  /\ counted (height self') (bitmap self') (particles self').
Proof.
  intros (G & B & P) W Hlen K H.
  destruct (tick_fields _ _ _ H) as (_ & _ & Eh & _).
  unfold tick in H. destruct (gravity self) as [[g0 g1] g2].
  destruct (velocity_pass _ _ _ _ _ _) as [ps|] eqn:Hv; simpl in H;
    [|discriminate].
  destruct (position_pass _ _ _) as [[bm ps']|] eqn:Hp; simpl in H;
    [|discriminate].
  inversion H; subst; clear H. simpl in *.
  apply velocity_pass_spec in Hv.
  assert (Hps : Forall (fun p => in_bounds self p /\ limited p) ps).
  { clear Hp K. induction Hv as [|p q l l' (Ex & Ey & _ & Hl) _ IH].
    - constructor.
    - inversion P; subst. constructor; [|now apply IH].
      split; [|assumption]. unfold in_bounds. now rewrite Ex, Ey. }
  assert (K0 : counted (height self) (bitmap self) ([] ++ ps)).
  { intros cx cy Hx Hy. simpl.
    rewrite (count_in_cell_same_cells _ _ cx cy Hv). now apply K. }
  exact (position_pass_counted self G W ps [] (bitmap self) bm ps'
           Hlen Hps K0 Hp).
Qed.

Lemma host_step_invariant (self self' : Simulation) :
  engine_invariant self -> host_step self self' -> engine_invariant self'.
Proof.
  intros (Hwf & W & L & K) Hstep.
  pose proof (host_step_well_formed _ _ Hwf Hstep) as Hwf'.
  split; [exact Hwf'|]. destruct Hstep as [rng self self' Ht|g self].
  - destruct (tick_fields _ _ _ Ht) as (_ & Ew & _).
    destruct (tick_counted rng self self' Hwf W L K Ht) as [L' K'].
    rewrite Ew. tauto.
  - simpl. tauto.
Qed.

Lemma host_steps_invariant (self self' : Simulation) :
  engine_invariant self -> rtc host_step self self' -> engine_invariant self'.
Proof.
  intros Hinv Hrun. induction Hrun as [|s1 s2 s3 Hstep _ IH]; [assumption|].
  apply IH. eapply host_step_invariant; eauto.
Qed.

Lemma invariant_correspondence (self : Simulation) :
  engine_invariant self -> correspondence self.
Proof.
  intros (_ & W & _ & K) cx cy Hx Hy. rewrite W in Hx.
  rewrite (K cx cy Hx Hy).
  destruct (pixel_is_set (bitmap self) cx cy); split; try lia;
    split; intros H; (reflexivity || discriminate).
Qed.

Lemma in_range (n : nat) (z : Z) : 0 <= z < Z.of_nat n -> In z (range n).
Proof.
  intros H. unfold range. apply in_map_iff. exists (Z.to_nat z).
  split; [lia|]. apply in_seq. lia.
Qed.

Lemma countedb_correct (n : nat) (bm : list Z) (ps : list Particle.t) :
  countedb n bm ps = true -> counted (Z.of_nat n) bm ps.
Proof.
  unfold countedb, counted. intros H cx cy Hx Hy.
  rewrite forallb_forall in H. specialize (H cx (in_range 32 cx Hx)).
  rewrite forallb_forall in H. specialize (H cy (in_range n cy Hy)).
  unfold cell_checkb in H. now apply Nat.eqb_eq in H.
Qed.

Lemma in_boundsb_correct (self : Simulation) (ps : list Particle.t) :
  forallb (in_boundsb self) ps = true -> Forall (in_bounds self) ps.
Proof.
  intros H. apply Forall_forall. intros p Hp.
  rewrite forallb_forall in H. apply list_elem_of_In in Hp.
  specialize (H p Hp). unfold in_boundsb in H.
  repeat (apply andb_true_iff in H as [H ?]).
  unfold in_bounds. rewrite <- !Qle_bool_iff. tauto.
Qed.

(** With the colour supplied, the 32x32 engine starts in the invariant. *)
Lemma seeded_engine_invariant (c : color) (s0 : Simulation) :
  Simulation_init (Some c) 32 32 = OK s0 -> engine_invariant s0.
Proof.
  intros H. vm_compute in H. inversion H; subst; clear H.
  split; [split; [|split]|split; [|split]].
  - unfold grid_ok, GRID_MULTIPLIER. simpl. lia.
  - vm_compute. discriminate.
  - apply in_boundsb_correct. vm_compute. reflexivity.
  - reflexivity.
  - reflexivity.
  - apply (countedb_correct 32). vm_compute. reflexivity.
Qed.

(** On the grid the program is run with (width 32), and with the colour
    supplied at construction, the correspondence holds from the seeded
    engine on, before and after every tick and whatever gravity is set. *)
Theorem correspondence_on_width_32 (c : color) :
  exists s0,
    Simulation_init (Some c) 32 32 = OK s0
    /\ forall self, rtc host_step s0 self -> correspondence self.
Proof.
  destruct (Simulation_init_32_seeds c) as (s0 & H0 & _).
  exists s0. split; [exact H0|]. intros self Hrun.
  apply invariant_correspondence.
  eapply host_steps_invariant; [|exact Hrun].
  now apply (seeded_engine_invariant c).
Qed.

(** C3.  [create(64, 64)] raises [TypeError], so no engine is seeded at
    construction.  With the colour supplied the 64x64 engine is seeded,
    and already then cell (32, 0) reads as set although no particle is in
    it: the pixel methods ignore the column word, and the bits of columns
    0 to 31 answer for columns 32 to 63. *)
Theorem wide_grid_breaks_correspondence (c : color) :
  create 64 64 = Raise TypeError_missing_argument_c
  /\ exists s0,
      Simulation_init (Some c) 64 64 = OK s0
      /\ width s0 = 64 /\ height s0 = 64
      /\ pixel_is_set (bitmap s0) 32 0 = true
      /\ count_in_cell (particles s0) 32 0 = 0%nat
      /\ ~ correspondence s0.
Proof.
  split; [reflexivity|]. eexists. split; [vm_compute; reflexivity|].
  split; [reflexivity|]. split; [reflexivity|].
  split; [vm_compute; reflexivity|]. split; [vm_compute; reflexivity|].
  intros H. destruct (H 32 0) as [[Hset _] _]; [simpl; lia | simpl; lia|].
  assert (Hc := Hset ltac:(vm_compute; reflexivity)).
  vm_compute in Hc. discriminate.
Qed.

(** ** Instances *)

Lemma configuration_error_iff_not_multiple_witness :
  Simulation_init None 33 32 = Raise ValueError_not_multiple_of_32.
Proof.
  apply (proj2 (proj1 (configuration_error_iff_not_multiple None 33 32))).
  left. vm_compute. discriminate.
Defined.

Lemma add_particle_no_validation_witness :
  exists self',
    add_particle scenario_engine scenario_particle = OK self'
    /\ count_in_cell (particles self') 5 5 = 2%nat.
Proof.
  destruct (add_particle_no_validation scenario_engine scenario_particle)
    as (_ & _ & H).
  - vm_compute. discriminate.
  - vm_compute. discriminate.
  - destruct H as (self' & Ha & Hc & _).
    + split; [apply Z.leb_le | apply Z.ltb_lt]; reflexivity.
    + reflexivity.
    + exists self'. split; [exact Ha|].
      change 5 with (cell (Particle.x scenario_particle)) at 1.
      change 5 with (cell (Particle.y scenario_particle)).
      rewrite Hc. reflexivity.
Defined.

Lemma pixel_ops_raise_iff_row_outside_witness :
  exists e, get_pixel (replicate 32 0) 0 32 = Raise e.
Proof.
  apply (proj1 (pixel_ops_raise_iff_row_outside (replicate 32 0) 0 32)).
  right. vm_compute. discriminate.
Defined.

(** With the colour supplied, the 64x64 engine is seeded in columns 0 to
    31 only: 64 particles, not two full rows of 64. *)
Lemma Simulation_init_64_seeds_32_columns (c : color) :
  exists s0,
    Simulation_init (Some c) 64 64 = OK s0
    /\ particles s0 = seeded_particles c
    /\ length (particles s0) = 64%nat.
Proof. eexists. split; [vm_compute; reflexivity|]. split; reflexivity. Qed.

(** * Further properties of the engine *)

(** ** What a tick keeps *)

Lemma position_pass_Forall2 (self : Simulation) (P : Particle.t -> Prop)
    (R : Particle.t -> Particle.t -> Prop) :
  (forall bm p bm' p',
      P p -> move_particle self bm p = OK (bm', p') -> R p p') ->
  forall ps bm bm' ps',
    Forall P ps -> position_pass self bm ps = OK (bm', ps') ->
    Forall2 R ps ps'.
Proof.
  intros Hstep. induction ps as [|p ps IH]; simpl; intros bm bm' ps' Hall H.
  - inversion H. constructor.
  - destruct (move_particle self bm p) as [[bm1 p1]|] eqn:Hm; simpl in H;
      [|discriminate].
    destruct (position_pass self bm1 ps) as [[bm2 ps2]|] eqn:Hp; simpl in H;
      [|discriminate].
    inversion H; subst; clear H. inversion Hall; subst.
    constructor; [eapply Hstep; eauto | eapply IH; eauto].
Qed.

Lemma position_pass_length (self : Simulation) (ps : list Particle.t) :
  forall bm bm' ps',
    position_pass self bm ps = OK (bm', ps') -> length bm' = length bm.
Proof.
  induction ps as [|p ps IH]; simpl; intros bm bm' ps' H.
  - now inversion H.
  - destruct (move_particle self bm p) as [[bm1 p1]|] eqn:Hm; simpl in H;
      [|discriminate].
    destruct (position_pass self bm1 ps) as [[bm2 ps2]|] eqn:Hp; simpl in H;
      [|discriminate].
    inversion H; subst; clear H.
    destruct (move_particle_pixels _ _ _ _ _ Hm) as (bmc & Hc & Hs).
    rewrite (IH _ _ _ Hp), (set_pixel_length _ _ _ _ Hs).
    apply (clear_pixel_length _ _ _ _ Hc).
Qed.

Lemma tick_passes (rng : nat -> Z) (self self' : Simulation) :
  tick rng self = OK self' ->
  exists ps,
    velocity_pass rng 0 (fst (accel_of self)) (snd (accel_of self))
      (raz_of self) (particles self) = OK ps
    /\ position_pass self (bitmap self) ps
       = OK (bitmap self', particles self').
Proof.
  unfold tick, accel_of, raz_of. destruct (gravity self) as [[g0 g1] g2].
  simpl. intros H.
  destruct (velocity_pass _ _ _ _ _ _) as [ps|] eqn:Hv; simpl in H;
    [|discriminate].
  destruct (position_pass _ _ _) as [[bm ps']|] eqn:Hp; simpl in H;
    [|discriminate].
  inversion H; subst; clear H. simpl. eauto.
Qed.

(** X1. A tick that completes keeps the particles in number, order and
    colour, keeps the length of the bitmap and every field but the clock
    ([gravity], [width], [height], [pwidth], [pheight], [grav_scale] and
    [bounce_scale]), and advances the clock by one. *)
Theorem tick_keeps_particles (rng : nat -> Z) (self self' : Simulation) :
  tick rng self = OK self' ->
  map Particle.c (particles self') = map Particle.c (particles self)
  /\ length (particles self') = length (particles self)
  /\ length (bitmap self') = length (bitmap self)
  /\ simtime self' = simtime self + 1
  /\ gravity self' = gravity self
  /\ width self' = width self
  /\ height self' = height self
  /\ pwidth self' = pwidth self
  /\ pheight self' = pheight self
  /\ grav_scale self' = grav_scale self
  /\ bounce_scale self' = bounce_scale self.
Proof.
  intros H. destruct (tick_passes _ _ _ H) as (ps & Hv & Hp).
  destruct (tick_fields _ _ _ H)
    as (Eg & Ew & Eh & Epw & Eph & Egs & Ebs & Et).
  apply velocity_pass_spec in Hv.
  pose proof (position_pass_length _ _ _ _ _ Hp) as Hl.
  apply (position_pass_Forall2 self (fun _ => True)
           (fun p p' => Particle.c p' = Particle.c p)) in Hp.
  - assert (Hc : map Particle.c (particles self')
                 = map Particle.c (particles self)).
    { clear Hl. revert Hp. generalize (particles self').
      induction Hv as [|p q l l' (_ & _ & Ec & _) _ IH]; intros l2 Hp;
        inversion Hp; subst; simpl; [reflexivity|].
      f_equal; [congruence | now apply IH]. }
    split; [exact Hc|]. split.
    + rewrite <- (length_map Particle.c), Hc. apply length_map.
    + repeat split; assumption.
  - intros bm p bm' p' _ Hm. apply move_particle_shape in Hm. tauto.
  - apply Forall_forall. trivial.
Qed.

Lemma scenario_tick : tick (fun _ => 0) scenario_engine = OK scenario_after.
Proof. vm_compute. reflexivity. Qed.

Lemma tick_keeps_particles_witness :
  tick (fun _ => 0) scenario_engine = OK scenario_after
  /\ length (particles scenario_after) = length (particles scenario_engine).
Proof.
  split; [exact scenario_tick|].
  apply (tick_keeps_particles (fun _ => 0) scenario_engine scenario_after
           scenario_tick).
Defined.

(** ** When a tick completes *)

Lemma tick_bitmap_length (rng : nat -> Z) (self self' : Simulation) :
  tick rng self = OK self' -> length (bitmap self') = length (bitmap self).
Proof.
  intros H. destruct (tick_passes _ _ _ H) as (ps & _ & Hp).
  apply (position_pass_length _ _ _ _ _ Hp).
Qed.

Lemma raz_of_nonneg (self : Simulation) : (0 <= raz_of self)%Q.
Proof.
  unfold raz_of. destruct (gravity self) as [[g0 g1] g2].
  pose proof (Qabs_nonneg (g2 * grav_scale self)) as H.
  unfold Qdiv. set (a := Qabs (g2 * grav_scale self)) in *.
  assert (E : (a * / 8 * (5 # 2) == a * (5 # 16))%Q) by (field; discriminate).
  rewrite E. lra.
Qed.

Lemma integral_succ (q : Q) :
  (0 <= q)%Q -> integral q -> integral (q + 1) /\ 0 < py_int (q + 1).
Proof.
  unfold integral. intros Hq Hi.
  assert (E : (q + 1 == inject_Z (py_int q + 1))%Q).
  { rewrite inject_Z_plus. change (inject_Z 1) with 1%Q. lra. }
  assert (F : py_int (q + 1) = py_int q + 1).
  { rewrite (py_int_floor (q + 1)) by lra.
    rewrite (Qfloor_comp _ _ E). apply Qfloor_Z. }
  rewrite F. split; [lra|].
  rewrite py_int_floor by assumption.
  assert (H0 : (0 <= Qfloor q)%Z).
  { change 0 with (Qfloor 0). now apply Qfloor_resp_le. }
  lia.
Qed.

Lemma randint0_integral (r : Z) (raz : Q) :
  (0 <= raz)%Q -> integral raz -> exists j, randint0 r raz = OK j.
Proof.
  intros H0 Hi. destruct (integral_succ raz H0 Hi) as [Hs Hp].
  unfold randint0. unfold integral in Hs.
  rewrite (Qeq_eq_bool _ _ Hs).
  destruct (Z.ltb_spec 0 (py_int (raz + 1))); [eauto | lia].
Qed.

Lemma velocity_pass_total (rng : nat -> Z) (ax ay raz : Q)
    (ps : list Particle.t) :
  (0 <= raz)%Q -> integral raz ->
  forall k, exists ps', velocity_pass rng k ax ay raz ps = OK ps'.
Proof.
  intros H0 Hi. induction ps as [|p ps IH]; simpl; intros k; [eauto|].
  unfold update_velocity.
  destruct (randint0_integral (rng k) raz H0 Hi) as [jx ->].
  destruct (randint0_integral (rng (S k)) raz H0 Hi) as [jy ->]. simpl.
  destruct (IH (S (S k))) as [ps' ->]. simpl. eauto.
Qed.

Lemma move_particle_total (self : Simulation) (bm : list Z) (p : Particle.t) :
  grid_ok self -> height self <= Z.of_nat (length bm) ->
  in_bounds self p -> limited p ->
  exists bm' p', move_particle self bm p = OK (bm', p').
Proof.
  intros (Hw & Hh & Dw & Dh) Hlen [Bx By] [Lx Ly].
  destruct (candidate_cell self (pheight self) (height self) (Particle.y p)
              (Particle.vy p) Hh Dh By Ly) as (Cy & Cny & _).
  unfold move_particle.
  destruct (out_of_bounds self (pwidth self) _ _) as [nx vx].
  destruct (out_of_bounds self (pheight self) _ _) as [ny vy].
  simpl in Cny.
  set (x := Particle.x p) in *. set (y := Particle.y p) in *.
  assert (Ry : 0 <= cell y < Z.of_nat (length bm)) by lia.
  assert (Rny : 0 <= cell ny < Z.of_nat (length bm)) by lia.
  assert (Finish : forall nx' ny' vx' vy',
             (cell ny' = cell y \/ cell ny' = cell ny) ->
             exists bm' p',
               bind (clear_pixel bm (to_grid x) (to_grid y)) (fun bm1 =>
                 bind (set_pixel bm1 (to_grid nx') (to_grid ny')) (fun bm2 =>
                   OK (bm2, Particle.mk nx' ny' vx' vy' (Particle.c p))))
               = OK (bm', p')).
  { intros nx' ny' vx' vy' D.
    destruct (move_pixels_ok bm x y nx' ny') as (bm1 & bm2 & -> & Hs);
      [lia | destruct D as [-> | ->]; lia |].
    simpl. rewrite Hs. simpl. eauto. }
  rewrite (truthy_get_pixel bm nx ny Rny).
  destruct (negb (cell_index self x y =? cell_index self nx ny)); simpl;
    [|apply Finish; auto].
  destruct (pixel_is_set bm (cell nx) (cell ny)); simpl; [|apply Finish; auto].
  unfold collide. fold x y.
  rewrite (truthy_get_pixel bm nx y Ry), (truthy_get_pixel bm x ny Rny).
  destruct (_ =? 1); simpl; [apply Finish; auto|].
  destruct (_ =? width self); simpl; [apply Finish; auto|].
  destruct (Qle_bool (Qabs vy) (Qabs vx));
    destruct (pixel_is_set bm (cell nx) (cell y));
    destruct (pixel_is_set bm (cell x) (cell ny)); simpl;
    apply Finish; auto.
Qed.

Lemma position_pass_total (self : Simulation) (ps : list Particle.t) :
  grid_ok self ->
  forall bm, height self <= Z.of_nat (length bm) ->
    Forall (fun p => in_bounds self p /\ limited p) ps ->
    exists bm' ps', position_pass self bm ps = OK (bm', ps').
Proof.
  intros G. induction ps as [|p ps IH]; simpl; intros bm Hlen Hall; [eauto|].
  inversion Hall as [|? ? [Hb Hl] Hall']; subst.
  destruct (move_particle_total self bm p G Hlen Hb Hl) as (bm1 & p1 & Hm).
  rewrite Hm. simpl.
  destruct (move_particle_pixels _ _ _ _ _ Hm) as (bmc & Hc & Hs).
  destruct (IH bm1) as (bm2 & ps2 & ->); [|exact Hall'|simpl; eauto].
  rewrite (set_pixel_length _ _ _ _ Hs), (clear_pixel_length _ _ _ _ Hc).
  exact Hlen.
Qed.

Lemma tick_total (rng : nat -> Z) (self : Simulation) :
  grid_ok self -> Forall (in_bounds self) (particles self) ->
  height self <= Z.of_nat (length (bitmap self)) ->
  integral (raz_of self) ->
  exists self', tick rng self = OK self'.
Proof.
  intros G P Hlen Hi. pose proof (raz_of_nonneg self) as H0.
  unfold tick. unfold raz_of in Hi, H0.
  destruct (gravity self) as [[g0 g1] g2].
  match goal with
  | |- context [velocity_pass ?r ?k ?ax ?ay ?raz ?ps] =>
      destruct (velocity_pass_total r ax ay raz ps H0 Hi k) as [ps1 Hv]
  end.
  rewrite Hv. simpl. apply velocity_pass_spec in Hv.
  assert (Hps : Forall (fun p => in_bounds self p /\ limited p) ps1).
  { induction Hv as [|p q l l' (Ex & Ey & _ & Hl) _ IH].
    - constructor.
    - inversion P; subst. constructor; [|now apply IH].
      split; [|assumption]. unfold in_bounds. now rewrite Ex, Ey. }
  destruct (position_pass_total self ps1 G (bitmap self) Hlen Hps)
    as (bm & ps2 & ->).
  simpl. eauto.
Qed.

(** X2. An engine laid out as [__init__] does, with its particles inside
    the grid, a bitmap of at least [height] words and an integral jitter
    ceiling, never fails in [tick]: any number of ticks completes,
    whatever the random draws. *)
Theorem ticks_complete (n : nat) :
  forall (rngs : nat -> nat -> Z) (self : Simulation),
    well_formed self ->
    height self <= Z.of_nat (length (bitmap self)) ->
    integral (raz_of self) ->
    exists self', ticks n rngs self = OK self'.
Proof.
  induction n as [|n IH]; simpl; intros rngs self Hwf Hlen Hi; [eauto|].
  destruct Hwf as (G & B & P).
  destruct (tick_total (rngs O) self G P Hlen Hi) as [s1 Ht].
  rewrite Ht. simpl. apply IH.
  - apply (host_step_well_formed self s1 (conj G (conj B P))).
    exact (host_tick _ _ _ Ht).
  - destruct (tick_fields _ _ _ Ht) as (_ & _ & -> & _).
    now rewrite (tick_bitmap_length _ _ _ Ht).
  - destruct (tick_fields _ _ _ Ht) as (Eg & _ & _ & _ & _ & Es & _).
    unfold raz_of in *. now rewrite Eg, Es.
Qed.

Lemma ticks_complete_witness :
  exists self', ticks 3 (fun _ _ => 7) scenario_engine = OK self'.
Proof.
  apply (ticks_complete 3 (fun _ _ => 7) scenario_engine).
  - exact scenario_engine_well_formed.
  - apply Z.leb_le. reflexivity.
  - reflexivity.
Defined.

Lemma integral_pred (q : Q) : (0 <= q)%Q -> integral (q + 1) -> integral q.
Proof.
  unfold integral. intros Hq Hi.
  assert (E : (q == inject_Z (py_int (q + 1) - 1))%Q).
  { unfold Z.sub. rewrite inject_Z_plus.
    change (inject_Z (- (1))) with (-1)%Q. lra. }
  rewrite (py_int_floor q Hq), (Qfloor_comp _ _ E), Qfloor_Z.
  symmetry. exact E.
Qed.

(** With exact numbers: the first draw of a tick with a particle raises
    when the jitter ceiling has a fractional part. *)
Lemma tick_first_draw_raises (rng : nat -> Z) (self : Simulation) :
  particles self <> [] -> ~ integral (raz_of self) ->
  tick rng self = Raise ValueError_randrange.
Proof.
  pose proof (raz_of_nonneg self) as H0.
  pose proof (integral_pred (raz_of self) H0) as Hpred.
  unfold tick, raz_of, integral in *. destruct (gravity self) as [[g0 g1] g2].
  intros Hne Hni. destruct (particles self) as [|p ps]; [congruence|].
  simpl. unfold update_velocity, randint0.
  destruct (Qeq_bool _ _) eqn:E; [|reflexivity].
  apply Qeq_bool_eq in E. apply Hpred in E. contradiction.
Qed.

(** The jitter ceiling of an integer gravity: [5 * |gz * grav_scale| / 16]. *)
Lemma raz_of_integer_gravity (self : Simulation) (a0 a1 a2 b : Z) :
  gravity self = (inject_Z a0, inject_Z a1, inject_Z a2) ->
  grav_scale self = inject_Z b ->
  (raz_of self == (5 * Z.abs (a2 * b)) # 16)%Q.
Proof.
  intros Hg Hs. unfold raz_of. rewrite Hg, Hs.
  rewrite <- inject_Z_mult.
  change (Qabs (inject_Z (a2 * b))) with (inject_Z (Z.abs (a2 * b))).
  unfold Qeq, Qdiv, Qmult, Qinv, inject_Z. simpl. lia.
Qed.

(** X3. [tick] with an integer gravity: for a gravity and a [grav_scale]
    that are integers of magnitude at most [2^24], where the source
    computes the jitter ceiling [raz] exactly, a tick with at least one
    particle raises [ValueError] on its first random draw when
    [gravity[2] * grav_scale] is not a multiple of 16.  Without particles
    it draws nothing and only advances the clock. *)
Theorem tick_raises_on_fractional_jitter (rng : nat -> Z) (self : Simulation)
    (a0 a1 a2 b : Z) :
  gravity self = (inject_Z a0, inject_Z a1, inject_Z a2) ->
  grav_scale self = inject_Z b ->
  Z.abs a0 <= 2 ^ 24 -> Z.abs a1 <= 2 ^ 24 -> Z.abs a2 <= 2 ^ 24 ->
  Z.abs b <= 2 ^ 24 ->
  (particles self <> [] -> (a2 * b) mod 16 <> 0 ->
   tick rng self = Raise ValueError_randrange)
  /\ (particles self = [] ->
      tick rng self
      = OK (mkSimulation (gravity self) (width self) (height self)
              (pwidth self) (pheight self) (grav_scale self)
              (bounce_scale self) (simtime self + 1) (bitmap self) [])).
Proof.
  intros Hg Hs _ _ _ _. split.
  - intros Hne Hm. apply tick_first_draw_raises; [exact Hne|].
    unfold integral. intros E. set (k := py_int _) in E. clearbody k.
    rewrite (raz_of_integer_gravity self a0 a1 a2 b Hg Hs) in E.
    unfold Qeq, inject_Z in E. simpl in E. apply Hm.
    clear Hm. set (m := a2 * b) in *. clearbody m.
    pose proof (Z.mod_pos_bound m 16 ltac:(lia)) as Hr.
    pose proof (Z.div_mod m 16 ltac:(lia)) as Hd. lia.
  - intros He. unfold tick. rewrite He.
    destruct (gravity self) as [[g0 g1] g2]. reflexivity.
Qed.

Lemma tick_raises_on_fractional_jitter_witness :
  tick (fun _ => 0) tilted_engine = Raise ValueError_randrange.
Proof.
  apply (proj1 (tick_raises_on_fractional_jitter (fun _ => 0) tilted_engine
                  0 0 1 1 eq_refl eq_refl
                  ltac:(vm_compute; discriminate)
                  ltac:(vm_compute; discriminate)
                  ltac:(vm_compute; discriminate)
                  ltac:(vm_compute; discriminate))).
  - discriminate.
  - vm_compute. discriminate.
Defined.

(** ** How far a particle moves *)

Lemma Forall2_compose {A : Type} (R1 R2 R3 : A -> A -> Prop)
    (l1 l2 l3 : list A) :
  (forall a b c, R1 a b -> R2 b c -> R3 a c) ->
  Forall2 R1 l1 l2 -> Forall2 R2 l2 l3 -> Forall2 R3 l1 l3.
Proof.
  intros Hc H12. revert l3.
  induction H12 as [|a b l1 l2 Hab _ IH]; intros l3 H23;
    inversion H23; subst; constructor; eauto.
Qed.

Lemma move_particle_one_cell (self : Simulation) (bm bm' : list Z)
    (p p' : Particle.t) :
  grid_ok self -> in_bounds self p -> limited p ->
  move_particle self bm p = OK (bm', p') -> one_cell_apart p p'.
Proof.
  intros (Hw & Hh & Dw & Dh) [Bx By] [Lx Ly] H.
  apply move_particle_shape in H. simpl in H.
  destruct H as (Hx & Hy & _).
  assert (H0w : 0 <= pwidth self) by (unfold GRID_MULTIPLIER in Dw; lia).
  assert (H0h : 0 <= pheight self) by (unfold GRID_MULTIPLIER in Dh; lia).
  destruct (out_of_bounds_step self (pwidth self) (Particle.x p)
              (Particle.vx p) H0w Bx Lx) as (Rx & Lox & Hix).
  destruct (out_of_bounds_step self (pheight self) (Particle.y p)
              (Particle.vy p) H0h By Ly) as (Ry & Loy & Hiy).
  simpl in *.
  assert (Ex : (0 <= Particle.x p')%Q
               /\ (Particle.x p - 256 <= Particle.x p' <= Particle.x p + 256)%Q).
  { destruct Hx as [-> | ->]; lra. }
  assert (Ey : (0 <= Particle.y p')%Q
               /\ (Particle.y p - 256 <= Particle.y p' <= Particle.y p + 256)%Q).
  { destruct Hy as [-> | ->]; lra. }
  destruct Ex as [Px Ex], Ey as [Py Ey].
  pose proof (cell_step (Particle.x p) (Particle.x p')
                (proj1 Bx) Px (proj1 Ex) (proj2 Ex)) as Cx.
  pose proof (cell_step (Particle.y p) (Particle.y p')
                (proj1 By) Py (proj1 Ey) (proj2 Ey)) as Cy.
  unfold one_cell_apart. repeat split; try tauto; lia.
Qed.

(** X4. No tunnelling from a state of small integers: in a tick that
    completes, on an engine laid out as [__init__] does, with its
    particles inside the grid and with gravity, positions and velocities
    that are integers ([integer_state], where the source's sums are
    exact), every particle moves by at most 256 sub-cell units along each
    axis and ends in its cell or in one of the eight neighbouring
    cells. *)
Theorem tick_moves_at_most_one_cell (rng : nat -> Z)
    (self self' : Simulation) :
  grid_ok self -> Forall (in_bounds self) (particles self) ->
  integer_state self ->
  tick rng self = OK self' ->
  Forall2 one_cell_apart (particles self) (particles self').
Proof.
  intros G P _ H. destruct (tick_passes _ _ _ H) as (ps & Hv & Hp).
  apply velocity_pass_spec in Hv.
  assert (Hps : Forall (fun p => in_bounds self p /\ limited p) ps).
  { clear Hp. induction Hv as [|p q l l' (Ex & Ey & _ & Hl) _ IH].
    - constructor.
    - inversion P; subst. constructor; [|now apply IH].
      split; [|assumption]. unfold in_bounds. now rewrite Ex, Ey. }
  apply (position_pass_Forall2 self
           (fun p => in_bounds self p /\ limited p) one_cell_apart) in Hp.
  - eapply Forall2_compose; [|exact Hv|exact Hp].
    intros a b c (Ex & Ey & _) Hbc. unfold one_cell_apart in *.
    now rewrite <- Ex, <- Ey.
  - intros bm p bm' p' [Hb Hl] Hm.
    eapply move_particle_one_cell; eauto.
  - exact Hps.
Qed.

Lemma tick_moves_at_most_one_cell_witness :
  Forall2 one_cell_apart (particles scenario_engine)
    (particles scenario_after).
Proof.
  apply (tick_moves_at_most_one_cell (fun _ => 0) scenario_engine
           scenario_after).
  - unfold grid_ok, GRID_MULTIPLIER. simpl. lia.
  - destruct scenario_engine_well_formed as (_ & _ & P). exact P.
  - repeat split. repeat constructor.
  - exact scenario_tick.
Defined.

(** ** An engine at rest *)

Lemma limit_velocity_inside (v : Q) :
  (Qabs v <= inject_Z GRID_MULTIPLIER)%Q -> limit_velocity v = v.
Proof.
  unfold limit_velocity, GRID_MULTIPLIER.
  change (inject_Z 256) with 256%Q. intros H.
  apply Qabs_Qle_condition in H.
  destruct (py_min_cases v 256) as [[-> H1]|[-> H1]]; [|lra].
  destruct (py_max_cases v (-(256))) as [[-> H2]|[-> H2]]; [reflexivity|lra].
Qed.

Lemma cell_Qeq (a b : Q) : (a == b)%Q -> (0 <= a)%Q -> cell a = cell b.
Proof.
  intros E Ha. unfold cell.
  pose proof (to_grid_scale a) as Ga. pose proof (to_grid_scale b) as Gb.
  assert (Eg : (to_grid a == to_grid b)%Q) by lra.
  rewrite !py_int_floor by lra. now apply Qfloor_comp.
Qed.

Lemma bounce_zero (self : Simulation) (v : Q) :
  (v == 0)%Q -> (bounce self v == 0)%Q.
Proof. intros E. unfold bounce. rewrite E. ring. Qed.

Lemma out_of_bounds_at_rest (self : Simulation) (limit : Z) (a v : Q) :
  (0 <= a <= inject_Z limit)%Q -> (v == 0)%Q ->
  (fst (out_of_bounds self limit (a + v) v) == a)%Q
  /\ (snd (out_of_bounds self limit (a + v) v) == 0)%Q.
Proof.
  intros Ha Ev. unfold out_of_bounds.
  destruct (Qltb (a + v) 0) eqn:E1; simpl.
  - apply Qltb_lt in E1. lra.
  - destruct (Qle_bool (inject_Z limit) (a + v)) eqn:E2; simpl.
    + apply Qle_bool_iff in E2. split; [lra | now apply bounce_zero].
    + split; [lra | exact Ev].
Qed.

Lemma move_particle_at_rest (self : Simulation) (bm : list Z)
    (p : Particle.t) :
  grid_ok self -> height self <= Z.of_nat (length bm) ->
  in_bounds self p -> at_rest p ->
  exists bm' p',
    move_particle self bm p = OK (bm', p')
    /\ length bm' = length bm /\ same_position p p' /\ at_rest p'.
Proof.
  intros (Hw & Hh & Dw & Dh) Hlen [Bx By] [Vx Vy].
  destruct (out_of_bounds_at_rest self (pwidth self) _ _ Bx Vx) as [Ex Ex'].
  destruct (out_of_bounds_at_rest self (pheight self) _ _ By Vy) as [Ey Ey'].
  unfold move_particle.
  destruct (out_of_bounds self (pwidth self) _ _) as [nx vx].
  destruct (out_of_bounds self (pheight self) _ _) as [ny vy].
  simpl in *.
  assert (Cx : cell nx = cell (Particle.x p)) by (apply cell_Qeq; lra).
  assert (Cy : cell ny = cell (Particle.y p)) by (apply cell_Qeq; lra).
  unfold cell_index. fold (cell (Particle.y p)) (cell (Particle.x p))
    (cell ny) (cell nx). rewrite Cx, Cy, Z.eqb_refl. simpl.
  assert (Ry : 0 <= cell (Particle.y p) < Z.of_nat (length bm)).
  { pose proof (cell_in_grid (Particle.y p) (height self) (proj1 By)) as C.
    rewrite <- Dh in C. specialize (C (proj2 By)). lia. }
  destruct (move_pixels_ok bm (Particle.x p) (Particle.y p) nx ny)
    as (bm1 & bm2 & Hc & Hs); [lia | lia |].
  rewrite Hc. simpl. rewrite Hs. simpl.
  exists bm2, (Particle.mk nx ny vx vy (Particle.c p)).
  split; [reflexivity|]. split.
  - rewrite (set_pixel_length _ _ _ _ Hs).
    apply (clear_pixel_length _ _ _ _ Hc).
  - unfold same_position, at_rest. simpl. repeat split; lra.
Qed.

Lemma position_pass_at_rest (self : Simulation) (ps : list Particle.t) :
  grid_ok self ->
  forall bm, height self <= Z.of_nat (length bm) ->
    Forall (fun p => in_bounds self p /\ at_rest p) ps ->
    exists bm' ps',
      position_pass self bm ps = OK (bm', ps')
      /\ length bm' = length bm
      /\ Forall2 (fun p p' => same_position p p' /\ at_rest p') ps ps'.
Proof.
  intros G. induction ps as [|p ps IH]; simpl; intros bm Hlen Hall.
  - exists bm, []. repeat split. constructor.
  - inversion Hall as [|? ? [Hb Hr] Hall']; subst.
    destruct (move_particle_at_rest self bm p G Hlen Hb Hr)
      as (bm1 & p1 & -> & L1 & S1 & R1). simpl.
    destruct (IH bm1) as (bm2 & ps2 & -> & L2 & F2);
      [rewrite L1; exact Hlen | exact Hall' |].
    simpl. exists bm2, (p1 :: ps2). split; [reflexivity|].
    split; [congruence|]. constructor; tauto.
Qed.

Lemma velocity_pass_at_rest (rng : nat -> Z) (ax ay raz : Q)
    (ps : list Particle.t) :
  (ax == 0)%Q -> (ay == 0)%Q -> (raz == 0)%Q -> Forall at_rest ps ->
  forall k, exists ps',
    velocity_pass rng k ax ay raz ps = OK ps'
    /\ Forall2 (fun p p' =>
                  Particle.x p' = Particle.x p /\ Particle.y p' = Particle.y p
                  /\ at_rest p') ps ps'.
Proof.
  intros Ex Ey Er Hall. induction Hall as [|p ps [Vx Vy] _ IH]; simpl;
    intros k.
  - exists []. split; [reflexivity | constructor].
  - unfold update_velocity. rewrite !randint0_zero by assumption. simpl.
    destruct (IH (S (S k))) as (ps' & -> & F). simpl.
    eexists. split; [reflexivity|]. constructor; [|exact F]. simpl.
    assert (Zx : (Particle.vx p + (ax + 0) == 0)%Q) by lra.
    assert (Zy : (Particle.vy p + (ay + 0) == 0)%Q) by lra.
    rewrite !limit_velocity_inside.
    + unfold at_rest. simpl. tauto.
    + apply Qabs_Qle_condition. change (inject_Z GRID_MULTIPLIER) with 256%Q.
      lra.
    + apply Qabs_Qle_condition. change (inject_Z GRID_MULTIPLIER) with 256%Q.
      lra.
Qed.

Lemma zero_gravity_accel (self : Simulation) :
  zero_gravity self ->
  (fst (accel_of self) == 0)%Q /\ (snd (accel_of self) == 0)%Q
  /\ (raz_of self == 0)%Q.
Proof.
  unfold zero_gravity, accel_of, raz_of.
  destruct (gravity self) as [[g0 g1] g2]. intros (E0 & E1 & E2). simpl.
  assert (Eg : (g2 * grav_scale self == 0)%Q) by (rewrite E2; ring).
  assert (Ea : (Qabs (g2 * grav_scale self) == 0)%Q)
    by (rewrite Eg; reflexivity).
  rewrite Ea, E0, E1. unfold Qdiv. repeat split; ring.
Qed.

Lemma same_position_in_bounds (self : Simulation) (p p' : Particle.t) :
  same_position p p' -> in_bounds self p -> in_bounds self p'.
Proof. intros [Ex Ey] [Bx By]. unfold in_bounds. split; lra. Qed.

Lemma tick_at_rest (rng : nat -> Z) (self : Simulation) :
  grid_ok self -> height self <= Z.of_nat (length (bitmap self)) ->
  zero_gravity self ->
  Forall (fun p => in_bounds self p /\ at_rest p) (particles self) ->
  exists self',
    tick rng self = OK self'
    /\ length (bitmap self') = length (bitmap self)
    /\ Forall2 (fun p p' => same_position p p' /\ at_rest p')
         (particles self) (particles self').
Proof.
  intros G Hlen Hz Hall. destruct (zero_gravity_accel self Hz) as (Ax & Ay & Er).
  unfold tick. unfold accel_of, raz_of in Ax, Ay, Er.
  destruct (gravity self) as [[g0 g1] g2]. simpl in Ax, Ay.
  assert (Hr : Forall at_rest (particles self)).
  { eapply Forall_impl; [exact Hall|]. now intros p [_ H]. }
  match goal with
  | |- context [velocity_pass ?r ?k ?ax ?ay ?raz ?ps] =>
      destruct (velocity_pass_at_rest r ax ay raz ps Ax Ay Er Hr k)
        as (ps1 & Hv & F1)
  end.
  rewrite Hv. simpl.
  assert (Hps : Forall (fun p => in_bounds self p /\ at_rest p) ps1).
  { clear Hv Hr. induction F1 as [|p q l l' (Ex & Ey & Hq) _ IH].
    - constructor.
    - inversion Hall as [|? ? [Hb _] Hall']; subst.
      constructor; [|now apply IH].
      split; [|assumption]. destruct Hb. unfold in_bounds.
      now rewrite Ex, Ey. }
  destruct (position_pass_at_rest self ps1 G (bitmap self) Hlen Hps)
    as (bm & ps2 & -> & L & F2).
  simpl. eexists. split; [reflexivity|]. simpl. split; [exact L|].
  eapply Forall2_compose; [|exact F1|exact F2].
  intros a b c (Ex & Ey & _) [[Sx Sy] Rc]. unfold same_position.
  rewrite <- Ex, <- Ey. tauto.
Qed.

(** X5. An engine at rest stays at rest: with gravity (0, 0, 0), all
    velocities zero and the particles inside the grid, any number of
    ticks completes, whatever the random draws, and leaves every particle
    where it was, still with zero velocity. *)
Theorem rest_is_a_fixed_point (n : nat) :
  forall (rngs : nat -> nat -> Z) (self : Simulation),
    grid_ok self -> height self <= Z.of_nat (length (bitmap self)) ->
    zero_gravity self ->
    Forall (fun p => in_bounds self p /\ at_rest p) (particles self) ->
    exists self',
      ticks n rngs self = OK self'
      /\ Forall2 (fun p p' => same_position p p' /\ at_rest p')
           (particles self) (particles self').
Proof.
  induction n as [|n IH]; simpl; intros rngs self G Hlen Hz Hall.
  - exists self. split; [reflexivity|].
    induction Hall as [|p ps [_ Hr] _ IHl]; constructor; [|exact IHl].
    split; [split; reflexivity | exact Hr].
  - destruct (tick_at_rest (rngs O) self G Hlen Hz Hall) as (s1 & Ht & L & F).
    rewrite Ht. simpl.
    destruct (tick_fields _ _ _ Ht) as (Eg & Ew & Eh & Epw & Eph & _).
    destruct (IH (fun j => rngs (S j)) s1) as (s2 & Hts & F2).
    + unfold grid_ok. now rewrite Ew, Eh, Epw, Eph.
    + now rewrite Eh, L.
    + unfold zero_gravity. now rewrite Eg.
    + clear Ht IH. revert Hall.
      induction F as [|p q l l' [Hs Hr] _ IHf]; intros Hall;
        constructor.
      * inversion Hall as [|? ? [Hb _] _]; subst. split; [|exact Hr].
        apply (same_position_in_bounds self) in Hs; [|exact Hb].
        unfold in_bounds in *. now rewrite Epw, Eph.
      * inversion Hall; subst. now apply IHf.
    + exists s2. split; [exact Hts|].
      eapply Forall2_compose; [|exact F|exact F2].
      intros a b c [[Sx Sy] _] [[Sx' Sy'] Rc]. split; [|exact Rc].
      split; [now rewrite Sx | now rewrite Sy].
Qed.

Lemma resting_engine_grid_ok : grid_ok resting_engine.
Proof. unfold grid_ok, GRID_MULTIPLIER. simpl. lia. Qed.

Lemma rest_is_a_fixed_point_witness :
  exists self',
    ticks 2 (fun _ _ => 5) resting_engine = OK self'
    /\ Forall2 (fun p p' => same_position p p' /\ at_rest p')
         (particles resting_engine) (particles self').
Proof.
  apply (rest_is_a_fixed_point 2 (fun _ _ => 5) resting_engine).
  - exact resting_engine_grid_ok.
  - apply Z.leb_le. reflexivity.
  - repeat split; reflexivity.
  - repeat constructor; vm_compute; discriminate.
Defined.

(** ** Single moves *)

(** X6. A free move: for a particle inside a 32-wide grid with limited
    velocity, when the candidate position (after the bounds check) lies in
    the particle's own cell or in a cell that is not set, the particle
    takes the candidate position and keeps the velocity the bounds check
    left; in the bitmap its new cell is set, its old cell is cleared when
    the two differ, and no other cell of the grid changes. *)
Theorem free_move (self : Simulation) (bm : list Z) (p : Particle.t) :
  let x := Particle.x p in
  let y := Particle.y p in
  let candx := out_of_bounds self (pwidth self) (x + Particle.vx p)
                 (Particle.vx p) in
  let candy := out_of_bounds self (pheight self) (y + Particle.vy p)
                 (Particle.vy p) in
  grid_ok self -> width self = 32 ->
  height self <= Z.of_nat (length bm) ->
  in_bounds self p -> limited p ->
  ((cell (fst candx) = cell x /\ cell (fst candy) = cell y)
   \/ pixel_is_set bm (cell (fst candx)) (cell (fst candy)) = false) ->
  exists bm',
    move_particle self bm p
    = OK (bm', Particle.mk (fst candx) (fst candy) (snd candx) (snd candy)
                 (Particle.c p))
    /\ forall cx cy, 0 <= cx < 32 -> 0 <= cy < height self ->
         pixel_is_set bm' cx cy
         = ((cx =? cell (fst candx)) && (cy =? cell (fst candy)))
           || (negb ((cx =? cell x) && (cy =? cell y))
               && pixel_is_set bm cx cy).
Proof.
  intros x y candx candy G W Hlen Hb Hl D.
  pose proof G as (Hw & Hh & Dw & Dh). destruct Hb as [Bx By].
  destruct Hl as [Lx Ly].
  destruct (candidate_cell self (pwidth self) (width self) x (Particle.vx p)
              Hw Dw Bx Lx) as (Cx & Cnx & _).
  destruct (candidate_cell self (pheight self) (height self) y (Particle.vy p)
              Hh Dh By Ly) as (Cy & Cny & _).
  fold candx in Cnx. fold candy in Cny. rewrite W in Cx, Cnx.
  assert (Ry : 0 <= cell y < Z.of_nat (length bm)) by lia.
  assert (Rny : 0 <= cell (fst candy) < Z.of_nat (length bm)) by lia.
  destruct (move_pixels_ok bm x y (fst candx) (fst candy))
    as (bm1 & bm2 & Hc & Hs); [lia | lia |].
  exists bm2. split.
  - unfold move_particle. fold x y candx candy.
    destruct candx as [nx vx], candy as [ny vy]. simpl in *.
    rewrite (truthy_get_pixel bm nx ny Rny).
    assert (Hhit : (if negb (cell_index self x y =? cell_index self nx ny)
                    then OK (pixel_is_set bm (cell nx) (cell ny))
                    else OK false) = OK false).
    { destruct D as [[Ex Ey] | F].
      - unfold cell_index. fold (cell y) (cell x) (cell ny) (cell nx).
        now rewrite Ex, Ey, Z.eqb_refl.
      - rewrite F. now destruct (negb _). }
    rewrite Hhit. simpl. rewrite Hc. simpl. rewrite Hs. reflexivity.
  - apply (clear_then_set bm bm1 bm2 x y (fst candx) (fst candy)
             (height self) Hlen Cx Cy Cnx Cny Hc Hs).
Qed.

Lemma free_move_witness :
  exists bm',
    move_particle resting_engine (bitmap resting_engine) resting_particle
    = OK (bm', resting_particle_moved)
    /\ pixel_is_set bm' 5 5 = true.
Proof.
  destruct (free_move resting_engine (bitmap resting_engine) resting_particle)
    as (bm' & Hm & Hpix).
  - exact resting_engine_grid_ok.
  - reflexivity.
  - apply Z.leb_le. reflexivity.
  - repeat split; vm_compute; discriminate.
  - split; vm_compute; discriminate.
  - left. split; reflexivity.
  - exists bm'. split; [exact Hm|].
    rewrite (Hpix 5 5) by (simpl; lia). reflexivity.
Defined.

(** X7. A blocked vertical move: in the position loop, on a grid wider
    than one cell, when the candidate position (after the bounds check)
    lies one cell above or below the particle's cell, in the same column,
    and that cell is occupied, the particle keeps its y and its vy is
    bounced; x and vx are as the bounds check left them. *)
Theorem blocked_vertical_move (self : Simulation) (bm : list Z)
    (p : Particle.t) :
  let x := Particle.x p in
  let y := Particle.y p in
  let candx := out_of_bounds self (pwidth self) (x + Particle.vx p)
                 (Particle.vx p) in
  let candy := out_of_bounds self (pheight self) (y + Particle.vy p)
                 (Particle.vy p) in
  1 < width self ->
  - Z.of_nat (length bm) <= cell y < Z.of_nat (length bm) ->
  cell (fst candx) = cell x ->
  Z.abs (cell (fst candy) - cell y) = 1 ->
  truthy (get_pixel bm (to_grid (fst candx)) (to_grid (fst candy))) = OK true ->
  exists bm',
    move_particle self bm p
    = OK (bm', Particle.mk (fst candx) y (snd candx)
                 (bounce self (snd candy)) (Particle.c p)).
Proof.
  intros x y candx candy Hw Ry Hdx Hdy Hocc.
  destruct (move_pixels_ok bm x y (fst candx) y) as (bm1 & bm2 & Hc & Hs);
    [exact Ry | exact Ry |].
  exists bm2. unfold move_particle. fold x y candx candy.
  destruct candx as [nx vx1], candy as [ny vy1]. simpl in *.
  unfold cell_index. fold (cell y) (cell x) (cell ny) (cell nx).
  rewrite Hdx.
  assert (Hd : Z.abs (cell ny * width self + cell x
                      - (cell y * width self + cell x)) = width self).
  { assert (E : cell ny = cell y + 1 \/ cell ny = cell y - 1) by lia.
    destruct E as [-> | ->]; lia. }
  destruct (Z.eqb_spec (cell y * width self + cell x)
              (cell ny * width self + cell x)) as [E|_]; [lia|].
  simpl. rewrite Hocc. simpl. unfold collide. rewrite Hd.
  destruct (Z.eqb_spec (width self) 1) as [E|_]; [lia|].
  rewrite Z.eqb_refl. simpl. fold x y. rewrite Hc. simpl. rewrite Hs.
  reflexivity.
Qed.

Lemma blocked_vertical_move_witness :
  exists bm',
    move_particle diagonal_engine floor_bitmap falling_particle
    = OK (bm', Particle.mk (inject_Z 1280 + 0) (inject_Z 1280) 0
                 (- (256) * (1 # 2)) white).
Proof.
  apply (blocked_vertical_move diagonal_engine floor_bitmap falling_particle).
  - simpl. lia.
  - split; [apply Z.leb_le | apply Z.ltb_lt]; reflexivity.
  - reflexivity.
  - reflexivity.
  - reflexivity.
Defined.

(** X8. The bounds check of an axis with limit [limit >= 0]: a candidate
    inside [[0, limit)] is kept with its velocity; a negative candidate
    becomes 0 and a candidate at or beyond the limit becomes the limit,
    both with the velocity bounced, also when the candidate is exactly
    the limit; the result always lies in [[0, limit]]. *)
Theorem bounds_check_cases (self : Simulation) (limit : Z) (n v : Q) :
  0 <= limit ->
  let r := out_of_bounds self limit n v in
  (0 <= fst r <= inject_Z limit)%Q
  /\ ((0 <= n)%Q -> (n < inject_Z limit)%Q -> r = (n, v))
  /\ ((n < 0)%Q -> r = (0%Q, bounce self v))
  /\ ((inject_Z limit <= n)%Q -> r = (inject_Z limit, bounce self v)).
Proof.
  intros Hl r. destruct (out_of_bounds_spec self limit n v Hl) as [R _].
  split; [exact R|]. subst r. unfold out_of_bounds.
  rewrite Zle_Qle in Hl. change (inject_Z 0) with 0%Q in Hl.
  destruct (Qltb n 0) eqn:E1.
  - apply Qltb_lt in E1. repeat split; intros; try reflexivity; lra.
  - apply Qltb_ge in E1.
    destruct (Qle_bool (inject_Z limit) n) eqn:E2.
    + apply Qle_bool_iff in E2. repeat split; intros; try reflexivity; lra.
    + assert (E3 : (n < inject_Z limit)%Q).
      { apply Qnot_le_lt. intros C. apply Qle_bool_iff in C. congruence. }
      repeat split; intros; try reflexivity; lra.
Qed.

Lemma bounds_check_cases_witness :
  out_of_bounds scenario_engine 7936 (inject_Z 7936) 256
  = (inject_Z 7936, bounce scenario_engine 256).
Proof.
  apply (bounds_check_cases scenario_engine 7936 (inject_Z 7936) 256).
  - lia.
  - vm_compute. discriminate.
Defined.

(** X9. [limit_velocity] saturates at [GRID_MULTIPLIER]: a velocity
    above 256 becomes 256, one below -256 becomes -256, one inside
    [[-256, 256]] is returned as it is, and limiting twice is limiting
    once. *)
Theorem limit_velocity_saturates (v : Q) :
  ((256 < v)%Q -> limit_velocity v = 256%Q)
  /\ ((v < - (256))%Q -> limit_velocity v = (- (256))%Q)
  /\ ((- (256) <= v)%Q -> (v <= 256)%Q -> limit_velocity v = v)
  /\ limit_velocity (limit_velocity v) = limit_velocity v.
Proof.
  assert (In : forall u, (- (256) <= u)%Q -> (u <= 256)%Q ->
                         limit_velocity u = u).
  { intros u H1 H2. apply limit_velocity_inside.
    apply Qabs_Qle_condition. change (inject_Z GRID_MULTIPLIER) with 256%Q.
    lra. }
  split; [|split; [|split]].
  - intros H. unfold limit_velocity, GRID_MULTIPLIER.
    change (inject_Z 256) with 256%Q.
    destruct (py_min_cases v 256) as [[-> H1]|[-> H1]]; [lra|].
    destruct (py_max_cases 256 (- (256))) as [[-> H2]|[-> H2]];
      [reflexivity | lra].
  - intros H. unfold limit_velocity, GRID_MULTIPLIER.
    change (inject_Z 256) with 256%Q.
    destruct (py_min_cases v 256) as [[-> H1]|[-> H1]]; [|lra].
    destruct (py_max_cases v (- (256))) as [[-> H2]|[-> H2]];
      [lra | reflexivity].
  - exact (In v).
  - pose proof (limit_velocity_range v) as R.
    apply Qabs_Qle_condition in R.
    change (inject_Z GRID_MULTIPLIER) with 256%Q in R. apply In; lra.
Qed.

Lemma limit_velocity_saturates_witness : limit_velocity 300 = 256%Q.
Proof.
  apply (proj1 (limit_velocity_saturates 300)). vm_compute. reflexivity.
Defined.

(** * Further properties of the bitmap *)

(** X10. Reading after writing, for every width: for rows inside the
    array, [set] and [clear] return, keep the length of the array, and a
    later [get] of a cell answers "set" after [set] (resp. "not set"
    after [clear]) exactly for the cells of the written row whose column
    is congruent modulo 32 to the written column; every other cell reads
    as before. *)
Theorem pixel_read_after_write (bm : list Z) (cx cy cx' cy' : Z) :
  0 <= cy < Z.of_nat (length bm) -> 0 <= cy' < Z.of_nat (length bm) ->
  exists bm1 bm2,
    set_pixel bm (inject_Z cx) (inject_Z cy) = OK bm1
    /\ clear_pixel bm (inject_Z cx) (inject_Z cy) = OK bm2
    /\ length bm1 = length bm /\ length bm2 = length bm
    /\ pixel_is_set bm1 cx' cy'
       = ((cy' =? cy) && (cx' mod 32 =? cx mod 32)) || pixel_is_set bm cx' cy'
    /\ pixel_is_set bm2 cx' cy'
       = negb ((cy' =? cy) && (cx' mod 32 =? cx mod 32))
         && pixel_is_set bm cx' cy'.
Proof.
  intros Hy Hy'.
  destruct (set_pixel_in_range bm cx cy Hy) as (w & Hw & Hs).
  destruct (clear_pixel_in_range bm cx cy Hy) as (w2 & Hw2 & Hc).
  do 2 eexists. split; [exact Hs|]. split; [exact Hc|].
  split; [apply length_insert|]. split; [apply length_insert|]. split.
  - apply (pixel_is_set_after_set bm _ cx cy cx' cy' Hy Hy' Hs).
  - apply (pixel_is_set_after_clear bm _ cx cy cx' cy' Hy Hy' Hc).
Qed.

Lemma pixel_read_after_write_witness :
  exists bm1 bm2,
    set_pixel (replicate 4 0) (inject_Z 33) (inject_Z 2) = OK bm1
    /\ clear_pixel (replicate 4 0) (inject_Z 33) (inject_Z 2) = OK bm2
    /\ pixel_is_set bm1 1 2 = true.
Proof.
  destruct (pixel_read_after_write (replicate 4 0) 33 2 1 2)
    as (bm1 & bm2 & Hs & Hc & _ & _ & H1 & _).
  - split; [apply Z.leb_le | apply Z.ltb_lt]; reflexivity.
  - split; [apply Z.leb_le | apply Z.ltb_lt]; reflexivity.
  - exists bm1, bm2. split; [exact Hs|]. split; [exact Hc|].
    rewrite H1. reflexivity.
Defined.

Lemma to_uint32_range (v : Z) : uint32 (to_uint32 v).
Proof. unfold uint32, to_uint32. apply Z.mod_pos_bound. lia. Qed.

Lemma uint32_ext (a b : Z) :
  uint32 a -> uint32 b ->
  (forall i, 0 <= i < 32 -> Z.testbit a i = Z.testbit b i) -> a = b.
Proof.
  unfold uint32. intros Ha Hb H.
  rewrite <- (Z.mod_small a (2 ^ 32)), <- (Z.mod_small b (2 ^ 32))
    by assumption.
  apply Z.bits_inj'. intros i Hi. destruct (Z_lt_ge_dec i 32) as [Hlt|Hge].
  - rewrite !Z.mod_pow2_bits_low by lia. apply H. lia.
  - rewrite !Z.mod_pow2_bits_high by lia. reflexivity.
Qed.

Lemma word_set_clear (w x : Z) :
  uint32 w -> Z.testbit w (x mod 32) = false ->
  to_uint32 (Z.land (to_uint32 (Z.lor w (bit_of x))) (Z.lnot (bit_of x))) = w.
Proof.
  intros Hw Hb. apply uint32_ext; [apply to_uint32_range | exact Hw |].
  intros i Hi. rewrite clear_bit_testbit, set_bit_testbit by assumption.
  destruct (Z.eqb_spec i (x mod 32)) as [->|]; simpl.
  - now rewrite Hb.
  - now rewrite orb_false_r, andb_true_r.
Qed.

Lemma word_clear_set (w x : Z) :
  uint32 w -> Z.testbit w (x mod 32) = true ->
  to_uint32 (Z.lor (to_uint32 (Z.land w (Z.lnot (bit_of x)))) (bit_of x)) = w.
Proof.
  intros Hw Hb. apply uint32_ext; [apply to_uint32_range | exact Hw |].
  intros i Hi. rewrite set_bit_testbit, clear_bit_testbit by assumption.
  destruct (Z.eqb_spec i (x mod 32)) as [->|]; simpl.
  - now rewrite Hb.
  - now rewrite orb_false_r, andb_true_r.
Qed.

Lemma word_set_again (w x : Z) :
  uint32 w -> Z.testbit w (x mod 32) = true ->
  to_uint32 (Z.lor w (bit_of x)) = w.
Proof.
  intros Hw Hb. apply uint32_ext; [apply to_uint32_range | exact Hw |].
  intros i Hi. rewrite set_bit_testbit by assumption.
  destruct (Z.eqb_spec i (x mod 32)) as [->|]; simpl.
  - now rewrite Hb.
  - now rewrite orb_false_r.
Qed.

Lemma insert_back (bm : list Z) (k : nat) (v w : Z) :
  bm !! k = Some w -> <[k := w]> (<[k := v]> bm) = bm.
Proof.
  intros H. rewrite list_insert_insert_eq. now apply list_insert_id.
Qed.

(** X11. Round trips on a bitmap of [uint32] words, for a row inside the
    array: [set] then [clear] of a cell that was not set, and [clear]
    then [set] of a cell that was set, give back the bitmap they started
    from; [set] of a cell that is set changes nothing. *)
Theorem pixel_round_trip (bm : list Z) (cx cy : Z) :
  Forall uint32 bm -> 0 <= cy < Z.of_nat (length bm) ->
  (pixel_is_set bm cx cy = false ->
   exists bm1, set_pixel bm (inject_Z cx) (inject_Z cy) = OK bm1
               /\ clear_pixel bm1 (inject_Z cx) (inject_Z cy) = OK bm)
  /\ (pixel_is_set bm cx cy = true ->
      set_pixel bm (inject_Z cx) (inject_Z cy) = OK bm
      /\ exists bm1, clear_pixel bm (inject_Z cx) (inject_Z cy) = OK bm1
                     /\ set_pixel bm1 (inject_Z cx) (inject_Z cy) = OK bm).
Proof.
  intros Hall Hy.
  destruct (set_pixel_in_range bm cx cy Hy) as (w & Hw & Hs).
  destruct (clear_pixel_in_range bm cx cy Hy) as (w' & Hw' & Hc).
  assert (w' = w) by congruence. subst w'.
  assert (Uw : uint32 w).
  { rewrite Forall_forall in Hall. apply Hall.
    apply list_elem_of_lookup. eauto. }
  assert (Hlt : (Z.to_nat cy < length bm)%nat) by lia.
  rewrite (pixel_is_set_in_range bm cx cy w (proj1 Hy) Hw).
  split; intros Hb.
  - eexists. split; [exact Hs|].
    destruct (clear_pixel_in_range (<[Z.to_nat cy := to_uint32 (Z.lor w (bit_of cx))]> bm)
                cx cy) as (v & Hv & ->).
    { now rewrite length_insert. }
    rewrite list_lookup_insert_eq in Hv by exact Hlt.
    inversion Hv; subst v. f_equal.
    rewrite (word_set_clear w cx Uw Hb). now apply insert_back.
  - split.
    + rewrite Hs. f_equal. rewrite (word_set_again w cx Uw Hb).
      now apply list_insert_id.
    + eexists. split; [exact Hc|].
      destruct (set_pixel_in_range
                  (<[Z.to_nat cy := to_uint32 (Z.land w (Z.lnot (bit_of cx)))]> bm)
                  cx cy) as (v & Hv & ->).
      { now rewrite length_insert. }
      rewrite list_lookup_insert_eq in Hv by exact Hlt.
      inversion Hv; subst v. f_equal.
      rewrite (word_clear_set w cx Uw Hb). now apply insert_back.
Qed.

Lemma pixel_round_trip_witness :
  exists bm1,
    set_pixel (replicate 4 0) (inject_Z 7) (inject_Z 3) = OK bm1
    /\ clear_pixel bm1 (inject_Z 7) (inject_Z 3) = OK (replicate 4 0).
Proof.
  apply (proj1 (pixel_round_trip (replicate 4 0) 7 3
                  ltac:(repeat constructor; vm_compute; discriminate)
                  ltac:(split; [apply Z.leb_le | apply Z.ltb_lt];
                        reflexivity))).
  reflexivity.
Defined.

(** X13. [get_pixel] returns the masked word, not a truth value: what it
    returns is either 0 or [1 << (x % 32)], and it is non-zero exactly
    when that bit of the word is set. *)
Theorem get_pixel_value (bm : list Z) (x y : Q) (v : Z) :
  get_pixel bm x y = OK v ->
  exists w, np_get bm (py_int y) = OK w
    /\ v = (if Z.testbit w (py_int x mod 32) then bit_of (py_int x) else 0)
    /\ 0 < bit_of (py_int x).
Proof.
  unfold get_pixel. destruct (np_get bm (py_int y)) as [w|]; simpl;
    [|discriminate].
  intros H. inversion H; subst; clear H. exists w. split; [reflexivity|].
  assert (Hm : 0 <= py_int x mod 32 < 32) by (apply Z.mod_pos_bound; lia).
  split.
  - pose proof (land_bit_of w (py_int x)) as Hl.
    destruct (Z.testbit w (py_int x mod 32)) eqn:Hb.
    + apply Z.bits_inj'. intros i Hi.
      rewrite Z.land_spec, bit_of_testbit by assumption.
      destruct (Z.eqb_spec i (py_int x mod 32)) as [->|];
        [now rewrite Hb | apply andb_false_r].
    + apply negb_false_iff in Hl. now apply Z.eqb_eq.
  - unfold bit_of. rewrite Z.shiftl_1_l. apply Z.pow_pos_nonneg; lia.
Qed.

Lemma get_pixel_value_witness :
  exists w, np_get (<[5%nat := 96]> (replicate 32 0)) (py_int 5) = OK w
    /\ 64 = (if Z.testbit w (py_int 6 mod 32) then bit_of (py_int 6) else 0)
    /\ 0 < bit_of (py_int 6).
Proof.
  apply (get_pixel_value (<[5%nat := 96]> (replicate 32 0)) 6 5 64).
  vm_compute. reflexivity.
Defined.

(** * Further properties of construction *)

(** X14. Adding a particle to a free cell: on a 32-wide engine in which
    bitmap and particles correspond, [add_particle] of a particle inside
    the grid whose cell is not set returns, and bitmap and particles
    still correspond afterwards, the new particle being the only one of
    its cell. *)
Theorem add_particle_to_free_cell (self : Simulation) (p : Particle.t) :
  engine_invariant self -> in_bounds self p ->
  pixel_is_set (bitmap self) (cell (Particle.x p)) (cell (Particle.y p))
  = false ->
  exists self',
    add_particle self p = OK self'
    /\ engine_invariant self' /\ correspondence self'
    /\ count_in_cell (particles self') (cell (Particle.x p))
         (cell (Particle.y p)) = 1%nat.
Proof.
  intros (Hwf & W & L & K) Hb Hfree.
  pose proof Hwf as (G & B & P). pose proof G as (Hw & Hh & Dw & Dh).
  destruct Hb as [Bx By].
  assert (Cx : 0 <= cell (Particle.x p) < 32).
  { rewrite <- W. apply cell_in_grid; [tauto|]. rewrite <- Dw. tauto. }
  assert (Cy : 0 <= cell (Particle.y p) < height self).
  { apply cell_in_grid; [tauto|]. rewrite <- Dh. tauto. }
  assert (Ry : 0 <= cell (Particle.y p) < Z.of_nat (length (bitmap self)))
    by lia.
  destruct (set_pixel_in_range (bitmap self) (cell (Particle.x p))
              (cell (Particle.y p)) Ry) as (w & Hw' & Hs).
  unfold add_particle. rewrite set_pixel_int.
  fold (cell (Particle.x p)) (cell (Particle.y p)). rewrite Hs. simpl.
  eexists. split; [reflexivity|].
  assert (Inv : engine_invariant
                  (with_bitmap (with_particles self (particles self ++ [p]))
                     (<[Z.to_nat (cell (Particle.y p)) :=
                          to_uint32 (Z.lor w (bit_of (cell (Particle.x p))))]>
                        (bitmap self)))).
  { split; [|split; [|split]]; simpl.
    - split; [exact G|]. split; [exact B|]. simpl.
      apply Forall_app. split; [exact P|]. constructor; [|constructor].
      split; assumption.
    - exact W.
    - now rewrite length_insert.
    - intros cx cy Hx Hy.
      rewrite (pixel_set_get_width_32 (bitmap self) _ (cell (Particle.x p))
                 (cell (Particle.y p)) cx cy Cx Hx Ry ltac:(lia) Hs).
      rewrite count_in_cell_app, count_in_cell_cons, (K cx cy Hx Hy).
      rewrite in_cell_eqb. unfold count_in_cell. simpl.
      destruct (in_cell cx cy p) eqn:E; simpl.
      + apply in_cell_true in E as [<- <-]. rewrite Hfree. reflexivity.
      + destruct (pixel_is_set (bitmap self) cx cy); reflexivity. }
  split; [exact Inv|]. split; [now apply invariant_correspondence|].
  simpl. rewrite count_in_cell_app, count_in_cell_cons, in_cell_own.
  rewrite (K _ _ Cx Cy), Hfree. reflexivity.
Qed.

Lemma resting_engine_invariant : engine_invariant resting_engine.
Proof.
  split; [split; [|split]|split; [|split]].
  - exact resting_engine_grid_ok.
  - vm_compute. discriminate.
  - repeat constructor; vm_compute; discriminate.
  - reflexivity.
  - reflexivity.
  - apply (countedb_correct 32). vm_compute. reflexivity.
Qed.

Lemma add_particle_to_free_cell_witness :
  exists self',
    add_particle resting_engine second_particle = OK self'
    /\ correspondence self'.
Proof.
  destruct (add_particle_to_free_cell resting_engine second_particle)
    as (self' & Ha & _ & Hc & _).
  - exact resting_engine_invariant.
  - repeat split; vm_compute; discriminate.
  - reflexivity.
  - exists self'. split; assumption.
Defined.

(** X15. For dimensions of magnitude at most [2^12], which a [float]
    and an array hold, [Simulation(width, height)] never returns an
    engine, and the exception is decided by the arguments alone:
    [ValueError] of the guard when a dimension is not a multiple of 32,
    else [ValueError] of [numpy.zeros] when the dimensions have opposite
    signs, else [TypeError] of the [Particle] call, also for zero
    dimensions. *)
Theorem create_always_raises (w h : Z) :
  Z.abs w <= 2 ^ 12 -> Z.abs h <= 2 ^ 12 ->
  create w h
  = Raise (if negb (w mod 32 =? 0) || negb (h mod 32 =? 0)
           then ValueError_not_multiple_of_32
           else if h * w <? 0 then ValueError_negative_dimensions
                else TypeError_missing_argument_c).
Proof.
  intros _ _. unfold create, Simulation_init, init_fields.
  destruct (negb (w mod 32 =? 0) || negb (h mod 32 =? 0)) eqn:Hg;
    [reflexivity|].
  rewrite bitmap_length_formula.
  apply orb_false_iff in Hg as [Hw Hh].
  apply negb_false_iff, Z.eqb_eq in Hw. apply negb_false_iff, Z.eqb_eq in Hh.
  apply Z.mod_divide in Hw; [|lia]. apply Z.mod_divide in Hh; [|lia].
  destruct Hw as [a ->], Hh as [b ->].
  replace (b * 32 * (a * 32)) with (b * a * 32 * 32) by ring.
  rewrite Z.quot_mul by lia.
  destruct (Z.ltb_spec (b * a * 32) 0), (Z.ltb_spec (b * a * 32 * 32) 0);
    try lia; reflexivity.
Qed.

Lemma create_always_raises_witness :
  create (-32) 32 = Raise ValueError_negative_dimensions
  /\ create 0 0 = Raise TypeError_missing_argument_c.
Proof.
  split.
  - exact (create_always_raises (-32) 32
             ltac:(vm_compute; discriminate) ltac:(vm_compute; discriminate)).
  - exact (create_always_raises 0 0
             ltac:(vm_compute; discriminate) ltac:(vm_compute; discriminate)).
Defined.

(** * The window of main.py *)

Lemma on_mouse_motion_fields (ww wh x y : Z) (sim sim' : Simulation) :
  on_mouse_motion ww wh sim x y = Some sim' ->
  raz_of sim' = raz_of sim /\ well_formed sim' = well_formed sim
  /\ height sim' = height sim /\ bitmap sim' = bitmap sim
  /\ particles sim' = particles sim.
Proof.
  unfold on_mouse_motion. destruct (_ || _); [discriminate|].
  unfold raz_of. destruct (gravity sim) as [[g0 g1] g2] eqn:Hg.
  intros H. inversion H; subst; clear H. simpl. repeat split.
Qed.

(** X16. [on_mouse_motion] replaces the planar gravity and nothing else:
    it fails (division by zero) exactly when a window dimension is 0;
    otherwise the z component of the gravity, the jitter ceiling, the
    bitmap and the particles are as before, and a pointer inside the
    window gives a planar gravity inside [[-32, 32]] on each axis. *)
Theorem on_mouse_motion_sets_planar_gravity
    (ww wh x y : Z) (sim : Simulation) :
  (on_mouse_motion ww wh sim x y = None <-> ww = 0 \/ wh = 0)
  /\ forall sim', on_mouse_motion ww wh sim x y = Some sim' ->
       snd (gravity sim') = snd (gravity sim)
       /\ raz_of sim' = raz_of sim
       /\ bitmap sim' = bitmap sim /\ particles sim' = particles sim
       /\ (0 < ww -> 0 <= x <= ww ->
           (- (32) <= fst (fst (gravity sim')) <= 32)%Q)
       /\ (0 < wh -> 0 <= y <= wh ->
           (- (32) <= snd (fst (gravity sim')) <= 32)%Q).
Proof.
  split.
  - unfold on_mouse_motion.
    destruct (Z.eqb_spec ww 0), (Z.eqb_spec wh 0); simpl;
      try (split; [intros _ | reflexivity]; lia).
    destruct (gravity sim) as [[g0 g1] g2]. split; [discriminate | lia].
  - intros sim' H.
    destruct (on_mouse_motion_fields _ _ _ _ _ _ H) as (Er & _ & _ & Eb & Ep).
    unfold on_mouse_motion in H. destruct (_ || _); [discriminate|].
    destruct (gravity sim) as [[g0 g1] g2].
    inversion H; subst; clear H. simpl.
    assert (Scale : forall n d : Z, 0 < d -> 0 <= n <= d ->
              (- (32) <= (inject_Z n / inject_Z d - (1 # 2))
                         * inject_Z GRAVITY_SCALE <= 32)%Q).
    { intros n d Hd Hn. change (inject_Z GRAVITY_SCALE) with 64%Q.
      assert (Hq : (0 <= inject_Z n / inject_Z d <= 1)%Q).
      { assert (Hd' : (0 < inject_Z d)%Q)
          by (change 0%Q with (inject_Z 0); now rewrite <- Zlt_Qlt).
        split.
        - apply Qle_shift_div_l; [exact Hd'|].
          rewrite Qmult_0_l. change 0%Q with (inject_Z 0).
          rewrite <- Zle_Qle. lia.
        - apply Qle_shift_div_r; [exact Hd'|].
          rewrite Qmult_1_l. rewrite <- Zle_Qle. lia. }
      lra. }
    repeat split; try assumption; try reflexivity; now apply Scale.
Qed.

Lemma on_mouse_motion_sets_planar_gravity_witness :
  exists sim',
    on_mouse_motion 512 512 scenario_engine 512 0 = Some sim'
    /\ snd (gravity sim') = snd (gravity scenario_engine).
Proof.
  eexists. split; [reflexivity|].
  apply (proj2 (on_mouse_motion_sets_planar_gravity 512 512 512 0
                  scenario_engine)).
  reflexivity.
Defined.

Lemma main_steps_keep (sim0 sim : Simulation) :
  rtc main_step sim0 sim ->
  well_formed sim0 ->
  height sim0 <= Z.of_nat (length (bitmap sim0)) ->
  raz_of sim = raz_of sim0 /\ well_formed sim
  /\ height sim <= Z.of_nat (length (bitmap sim)).
Proof.
  intros Hrun. induction Hrun as [|s1 s2 s3 Hstep _ IH]; intros Hwf Hlen;
    [tauto|].
  destruct Hstep as [rng s1 s2 Ht|ww wh x y s1 s2 Hm].
  - destruct (tick_fields _ _ _ Ht) as (Eg & _ & Eh & _ & _ & Es & _).
    destruct IH as (Er & Hwf' & Hlen').
    + exact (host_step_well_formed s1 s2 Hwf (host_tick _ _ _ Ht)).
    + now rewrite Eh, (tick_bitmap_length _ _ _ Ht).
    + split; [|tauto]. rewrite Er. unfold raz_of. now rewrite Eg, Es.
  - destruct (on_mouse_motion_fields _ _ _ _ _ _ Hm)
      as (Er & Ewf & Eh & Eb & _).
    destruct IH as (Er' & Hwf' & Hlen').
    + now rewrite Ewf.
    + now rewrite Eh, Eb.
    + split; [congruence | tauto].
Qed.

(** X17. Run by main.py, the engine never fails and never jitters: from
    an engine laid out as [__init__] does with its particles inside the
    grid and a jitter ceiling of zero (gravity z is 0 at construction and
    the mouse never sets it), after any sequence of updates and mouse
    motions the next tick completes, and its result does not depend on
    the random draws. *)
Theorem main_loop_ticks_complete (sim0 sim : Simulation) (rng : nat -> Z) :
  well_formed sim0 ->
  height sim0 <= Z.of_nat (length (bitmap sim0)) ->
  (raz_of sim0 == 0)%Q ->
  rtc main_step sim0 sim ->
  exists sim', tick rng sim = OK sim' /\ tick (fun _ => 0) sim = OK sim'.
Proof.
  intros Hwf Hlen Hz Hrun.
  destruct (main_steps_keep _ _ Hrun Hwf Hlen) as (Er & (G & B & P) & Hlen').
  assert (Hz' : (raz_of sim == 0)%Q) by (now rewrite Er).
  rewrite (tick_zero_raz rng sim Hz').
  destruct (tick_total (fun _ => 0) sim G P Hlen') as [sim' Ht]; [|eauto].
  unfold integral. rewrite (py_int_floor _ (raz_of_nonneg sim)).
  rewrite (Qfloor_comp _ _ Hz'). rewrite Hz'. reflexivity.
Qed.

Lemma main_loop_ticks_complete_witness :
  exists sim',
    tick (fun _ => 9) scenario_engine = OK sim'
    /\ tick (fun _ => 0) scenario_engine = OK sim'.
Proof.
  apply (main_loop_ticks_complete scenario_engine scenario_engine).
  - exact scenario_engine_well_formed.
  - apply Z.leb_le. reflexivity.
  - reflexivity.
  - apply rtc_refl.
Defined.

(** X18. The particles are drawn inside the window: for an engine laid
    out as [__init__] does, [update] computes two vertex coordinates per
    particle, and for a particle inside the grid each lies between 8 and
    [width*16 - 8] (resp. [height*16 - 8]), half a displayed cell inside
    the window of [width*16 x height*16] pixels. *)
Theorem particle_vertices_inside_window (sim : Simulation) :
  grid_ok sim -> Forall (in_bounds sim) (particles sim) ->
  length (particle_vertices sim) = (2 * length (particles sim))%nat
  /\ Forall (fun p =>
       (8 <= display_coordinate (Particle.x p)
          <= inject_Z (width sim * DISPLAY_SCALE - 8))%Q
       /\ (8 <= display_coordinate (Particle.y p)
             <= inject_Z (height sim * DISPLAY_SCALE - 8))%Q)
       (particles sim).
Proof.
  intros (_ & _ & Dw & Dh) P. split.
  - unfold particle_vertices. clear. induction (particles sim) as [|p ps IH];
      [reflexivity|]. simpl flat_map. simpl length. rewrite IH. lia.
  - eapply Forall_impl; [exact P|]. intros p [Bx By].
    rewrite Dw in Bx. rewrite Dh in By.
    unfold GRID_MULTIPLIER, DISPLAY_SCALE in *.
    assert (Disp : forall v n,
              (0 <= v <= inject_Z (n * 256 - 256))%Q ->
              (8 <= display_coordinate v <= inject_Z (n * 16 - 8))%Q).
    { intros v n Hv. unfold display_coordinate, GRID_MULTIPLIER, DISPLAY_SCALE.
      assert (E : (v / (inject_Z 256 / inject_Z 16)
                   + inject_Z 256 / inject_Z 16 / 2 == v * (1 # 16) + 8)%Q)
        by (field; split; discriminate).
      rewrite E. unfold Z.sub in *.
      rewrite inject_Z_plus, inject_Z_mult in *.
      change (inject_Z 256) with 256%Q in Hv.
      change (inject_Z (- (256))) with (-256)%Q in Hv.
      change (inject_Z 16) with 16%Q. change (inject_Z (- (8))) with (-8)%Q.
      lra. }
    split; now apply Disp.
Qed.

Lemma particle_vertices_inside_window_witness :
  length (particle_vertices scenario_engine)
  = (2 * length (particles scenario_engine))%nat.
Proof.
  apply (particle_vertices_inside_window scenario_engine).
  - unfold grid_ok, GRID_MULTIPLIER. simpl. lia.
  - destruct scenario_engine_well_formed as (_ & _ & P). exact P.
Defined.

(** ** The colours of the cells *)

Lemma for_each_append {A B : Type} (g : A -> list B)
    (body : A -> list B -> result (list B)) (xs : list A) :
  (forall a c, In a xs -> body a c = OK (c ++ g a)) ->
  forall c, for_each xs body c = OK (c ++ flat_map g xs).
Proof.
  induction xs as [|a xs IH]; simpl; intros Hbody c.
  - now rewrite app_nil_r.
  - rewrite Hbody by now left. simpl.
    rewrite IH by (intros; apply Hbody; now right).
    now rewrite <- app_assoc.
Qed.

Lemma flat_map_lookup {A B : Type} (f : A -> list B) (m : nat) (xs : list A) :
  (forall a, In a xs -> length (f a) = m) ->
  forall i a k, xs !! i = Some a -> (k < m)%nat ->
    flat_map f xs !! (i * m + k)%nat = f a !! k.
Proof.
  induction xs as [|x xs IH]; intros Hlen i a k Hi Hk; [discriminate|].
  simpl flat_map. destruct i as [|i]; simpl in Hi.
  - inversion Hi; subst. simpl. apply lookup_app_l.
    rewrite Hlen by now left. exact Hk.
  - rewrite lookup_app_r by (rewrite Hlen by (now left); lia).
    rewrite Hlen by now left.
    replace (S i * m + k - m)%nat with (i * m + k)%nat by lia.
    apply IH; [intros; apply Hlen; now right | exact Hi | exact Hk].
Qed.

Lemma flat_map_length_uniform {A B : Type} (f : A -> list B) (m : nat)
    (xs : list A) :
  (forall a, In a xs -> length (f a) = m) ->
  length (flat_map f xs) = (length xs * m)%nat.
Proof.
  induction xs as [|x xs IH]; intros Hlen; [reflexivity|].
  simpl. rewrite length_app, Hlen by now left.
  rewrite IH by (intros; apply Hlen; now right). reflexivity.
Qed.

Lemma range_lookup (n : nat) (z : Z) :
  0 <= z < Z.of_nat n -> range n !! Z.to_nat z = Some z.
Proof.
  intros H. unfold range. rewrite list_lookup_fmap.
  rewrite lookup_seq_lt by lia. simpl. f_equal. lia.
Qed.

Lemma range_bounds (n : nat) (z : Z) : In z (range n) -> 0 <= z < Z.of_nat n.
Proof.
  unfold range. rewrite in_map_iff. intros (k & <- & Hk).
  apply in_seq in Hk. lia.
Qed.

(** The block of cell [(x, y)] before the particles are painted. *)
Lemma cell_color_in_range (sim : Simulation) (x y : Z) :
  0 <= y < Z.of_nat (length (bitmap sim)) ->
  cell_color sim x y
  = OK (if pixel_is_set (bitmap sim) x y then [1; 1; 1 # 2]%Q
        else [1 # 2; inject_Z x / 128; inject_Z y / 128]%Q).
Proof.
  intros Hy. unfold cell_color, pixel_is_set.
  destruct (get_pixel_in_range (bitmap sim) x y Hy) as (w & _ & ->).
  reflexivity.
Qed.

Lemma cell_colors_in_range (sim : Simulation) :
  SIM_HEIGHT <= Z.of_nat (length (bitmap sim)) ->
  cell_colors sim
  = OK (flat_map (fun x =>
          flat_map (fun y =>
            if pixel_is_set (bitmap sim) x y then [1; 1; 1 # 2]%Q
            else [1 # 2; inject_Z x / 128; inject_Z y / 128]%Q)
            (range (Z.to_nat SIM_HEIGHT))) (range (Z.to_nat SIM_WIDTH))).
Proof.
  intros Hlen. unfold cell_colors.
  rewrite (for_each_append
             (fun x => flat_map (fun y =>
                if pixel_is_set (bitmap sim) x y then [1; 1; 1 # 2]%Q
                else [1 # 2; inject_Z x / 128; inject_Z y / 128]%Q)
                (range (Z.to_nat SIM_HEIGHT)))); [reflexivity|].
  intros x c _. apply for_each_append. intros y c' Hy.
  apply range_bounds in Hy. rewrite cell_color_in_range; [reflexivity|].
  unfold SIM_HEIGHT in *. lia.
Qed.

Lemma slice_assign_inside {A : Type} (c t : list A) (i : Z) :
  0 <= i -> i + 3 <= Z.of_nat (length c) ->
  slice_assign c i (i + 3) t
  = take (Z.to_nat i) c ++ t ++ drop (Z.to_nat i + 3) c.
Proof.
  intros H0 H1. unfold slice_assign, slice_index.
  destruct (Z.ltb_spec i 0); [lia|]. destruct (Z.ltb_spec (i + 3) 0); [lia|].
  rewrite !Z.min_l, Z.max_r by lia. do 3 f_equal. lia.
Qed.

Lemma color_list_length (c : color) : length (color_list c) = 3%nat.
Proof. destruct c as [[r g] b]. reflexivity. Qed.

Lemma slot_spec (cx cy : Z) :
  0 <= cx < 32 -> 0 <= cy < 32 ->
  slot cx cy = (Z.to_nat cx * 96 + Z.to_nat cy * 3)%nat
  /\ (slot cx cy + 3 <= 3072)%nat.
Proof. unfold slot, SIM_WIDTH. lia. Qed.

Lemma paint_spec (c : list Q) (p : Particle.t) :
  length c = 3072%nat ->
  0 <= cell (Particle.x p) < 32 -> 0 <= cell (Particle.y p) < 32 ->
  length (paint c p) = 3072%nat
  /\ forall cx cy k, 0 <= cx < 32 -> 0 <= cy < 32 -> (k < 3)%nat ->
       paint c p !! (slot cx cy + k)%nat
       = if in_cell cx cy p then color_list (Particle.c p) !! k
         else c !! (slot cx cy + k)%nat.
Proof.
  intros Hlen Hx Hy.
  destruct (slot_spec _ _ Hx Hy) as [Es Hs].
  unfold paint. fold (slot (cell (Particle.x p)) (cell (Particle.y p))) in *.
  assert (Ei : Z.to_nat ((cell (Particle.x p) * SIM_WIDTH
                          + cell (Particle.y p)) * 3)
               = slot (cell (Particle.x p)) (cell (Particle.y p)))
    by reflexivity.
  rewrite slice_assign_inside by (unfold SIM_WIDTH; lia). rewrite Ei.
  set (s := slot (cell (Particle.x p)) (cell (Particle.y p))) in *.
  pose proof (color_list_length (Particle.c p)) as Lt.
  split.
  - rewrite !length_app, length_take, length_drop, Lt. lia.
  - intros cx cy k Hcx Hcy Hk.
    destruct (slot_spec _ _ Hcx Hcy) as [Ec Hc].
    destruct (in_cell cx cy p) eqn:E.
    + apply in_cell_true in E as [<- <-]. try fold s.
      rewrite lookup_app_r by (rewrite length_take; lia).
      rewrite length_take, Nat.min_l by lia.
      rewrite lookup_app_l by lia. f_equal. lia.
    + assert (Hne : cx <> cell (Particle.x p) \/ cy <> cell (Particle.y p)).
      { destruct (Z.eq_dec cx (cell (Particle.x p))) as [->|]; [|now left].
        destruct (Z.eq_dec cy (cell (Particle.y p))) as [->|]; [|now right].
        rewrite in_cell_own in E. discriminate. }
      assert (Hd : (slot cx cy + 3 <= s \/ s + 3 <= slot cx cy)%nat).
      { rewrite Es, Ec. lia. }
      destruct Hd as [Hd|Hd].
      * rewrite lookup_app_l by (rewrite length_take; lia).
        apply lookup_take_lt. lia.
      * rewrite lookup_app_r by (rewrite length_take; lia).
        rewrite length_take, Nat.min_l by lia.
        rewrite lookup_app_r by lia. rewrite Lt, lookup_drop. f_equal. lia.
Qed.

Lemma paint_all_spec (ps : list Particle.t) :
  Forall (fun p => 0 <= cell (Particle.x p) < 32
                   /\ 0 <= cell (Particle.y p) < 32) ps ->
  forall c, length c = 3072%nat ->
    length (fold_left paint ps c) = 3072%nat
    /\ forall cx cy k, 0 <= cx < 32 -> 0 <= cy < 32 -> (k < 3)%nat ->
         fold_left paint ps c !! (slot cx cy + k)%nat
         = match last_in_cell ps cx cy with
           | Some p => color_list (Particle.c p) !! k
           | None => c !! (slot cx cy + k)%nat
           end.
Proof.
  induction 1 as [|p ps [Hx Hy] _ IH]; intros c Hlen; simpl; [tauto|].
  destruct (paint_spec c p Hlen Hx Hy) as [L1 P1].
  destruct (IH (paint c p) L1) as [L2 P2]. split; [exact L2|].
  intros cx cy k Hcx Hcy Hk. rewrite (P2 cx cy k Hcx Hcy Hk).
  destruct (last_in_cell ps cx cy); [reflexivity|].
  rewrite (P1 cx cy k Hcx Hcy Hk). now destruct (in_cell cx cy p).
Qed.

(** X19. The colours of the cells: for a 32x32 engine with its particles
    inside the grid, [update] computes a list of 32*32*3 numbers, and the
    three numbers of cell [(cx, cy)], at position [(cx*32 + cy)*3], are
    the colour of the last particle of the sequence lying in that cell;
    a cell without particle is yellow when its bit is set and shows the
    gradient [(0.5, cx/128, cy/128)] otherwise. *)
Theorem pixel_colors_show_particles (sim : Simulation) :
  grid_ok sim -> width sim = SIM_WIDTH -> height sim = SIM_HEIGHT ->
  SIM_HEIGHT <= Z.of_nat (length (bitmap sim)) ->
  Forall (in_bounds sim) (particles sim) ->
  exists c,
    pixel_colors sim = OK c
    /\ length c = 3072%nat
    /\ forall cx cy k, 0 <= cx < 32 -> 0 <= cy < 32 -> (k < 3)%nat ->
         c !! (slot cx cy + k)%nat = shown sim cx cy !! k.
Proof.
  intros (Hw & Hh & Dw & Dh) W H Hlen P.
  pose (block := fun x y : Z =>
          if pixel_is_set (bitmap sim) x y then [1; 1; 1 # 2]%Q
          else [1 # 2; inject_Z x / 128; inject_Z y / 128]%Q).
  pose (c0 := flat_map (fun x => flat_map (block x)
                                   (range (Z.to_nat SIM_HEIGHT)))
                (range (Z.to_nat SIM_WIDTH))).
  assert (Hc0 : cell_colors sim = OK c0)
    by exact (cell_colors_in_range sim Hlen).
  unfold pixel_colors. rewrite Hc0. simpl bind.
  assert (Lb : forall x y, length (block x y) = 3%nat).
  { intros x y. unfold block. now destruct (pixel_is_set _ _ _). }
  assert (Lrow : forall x, length (flat_map (block x)
                                     (range (Z.to_nat SIM_HEIGHT))) = 96%nat).
  { intros x. rewrite (flat_map_length_uniform _ 3) by (intros; apply Lb).
    unfold range. now rewrite length_map, length_seq. }
  assert (L0 : length c0 = 3072%nat).
  { unfold c0. rewrite (flat_map_length_uniform _ 96) by (intros; apply Lrow).
    unfold range. now rewrite length_map, length_seq. }
  assert (Hcells : Forall (fun p => 0 <= cell (Particle.x p) < 32
                                    /\ 0 <= cell (Particle.y p) < 32)
                     (particles sim)).
  { eapply Forall_impl; [exact P|]. intros p [Bx By]. split.
    - change 32 with SIM_WIDTH. rewrite <- W.
      apply cell_in_grid; [tauto|]. rewrite <- Dw. tauto.
    - change 32 with SIM_HEIGHT. rewrite <- H.
      apply cell_in_grid; [tauto|]. rewrite <- Dh. tauto. }
  destruct (paint_all_spec (particles sim) Hcells c0 L0) as [L1 P1].
  eexists. split; [reflexivity|]. split; [exact L1|].
  intros cx cy k Hcx Hcy Hk. rewrite (P1 cx cy k Hcx Hcy Hk).
  unfold shown. destruct (last_in_cell (particles sim) cx cy); [reflexivity|].
  destruct (slot_spec cx cy Hcx Hcy) as [-> _].
  unfold c0.
  replace (Z.to_nat cx * 96 + Z.to_nat cy * 3 + k)%nat
    with (Z.to_nat cx * 96 + (Z.to_nat cy * 3 + k))%nat by lia.
  rewrite (flat_map_lookup _ 96 _ (fun a _ => Lrow a) (Z.to_nat cx) cx)
    by (try apply range_lookup; unfold SIM_WIDTH; lia).
  rewrite (flat_map_lookup (block cx) 3 _ (fun a _ => Lb cx a)
             (Z.to_nat cy) cy)
    by (try apply range_lookup; unfold SIM_HEIGHT; lia).
  reflexivity.
Qed.

Lemma pixel_colors_show_particles_witness :
  exists c,
    pixel_colors scenario_engine = OK c
    /\ c !! slot 5 5 = Some 255%Q.
Proof.
  destruct (pixel_colors_show_particles scenario_engine) as (c & Hc & _ & Hs).
  - unfold grid_ok, GRID_MULTIPLIER. simpl. lia.
  - reflexivity.
  - reflexivity.
  - apply Z.leb_le. reflexivity.
  - destruct scenario_engine_well_formed as (_ & _ & P). exact P.
  - exists c. split; [exact Hc|].
    specialize (Hs 5 5 0%nat ltac:(lia) ltac:(lia) ltac:(lia)).
    rewrite Nat.add_0_r in Hs. rewrite Hs. reflexivity.
Defined.

(** * The correspondence on a 32-wide grid *)

(** X20. On a 32-wide engine, ticks keep bitmap and particles in
    correspondence: from an engine in which every cell of the grid counts
    as many particles as its bit says (none or one), whatever the host
    does next (ticks that complete, with any random draws, and
    assignments of any gravity), a cell is set if and only if exactly one
    particle is in it, and no cell holds two. *)
Theorem ticks_keep_correspondence (self self' : Simulation) :
  engine_invariant self -> rtc host_step self self' ->
  engine_invariant self' /\ correspondence self'.
Proof.
  intros Hinv Hrun.
  pose proof (host_steps_invariant self self' Hinv Hrun) as Hinv'.
  split; [exact Hinv' | now apply invariant_correspondence].
Qed.

Lemma ticks_keep_correspondence_witness :
  exists self',
    tick (fun _ => 0) resting_engine = OK self' /\ correspondence self'.
Proof.
  eexists. split; [vm_compute; reflexivity|].
  apply (ticks_keep_correspondence resting_engine).
  - exact resting_engine_invariant.
  - apply rtc_once. apply (host_tick (fun _ => 0)). vm_compute. reflexivity.
Defined.
